(** * Materialized paths: the path codec and the tree operations of
      [paths/models.py] and [paths/utils.py], embedded as Rocq functions.

    Python strings are lists of characters (code points below 256), Python
    integers are [Z], [None] is [option]'s [None].  Code that can raise
    returns an [outcome]; the two [while] loops run on fuel and report
    [OutOfFuel] when it is exhausted, which the totality lemmas exclude. *)

From Stdlib Require Import Ascii String DecimalString.
From Stdlib Require Import ZArith List Bool Lia Arith Permutation.
Import ListNotations.

Local Open Scope Z_scope.

(** ** Strings *)

Definition str := list ascii.

Definition lit (s : string) : str := list_ascii_of_string s.

Definition ascii_eqb (a b : ascii) : bool := Ascii.eqb a b.

(** [a.startswith(b)] on character lists. *)
Fixpoint startswith (s p : str) : bool :=
  match p, s with
  | [], _ => true
  | _ :: _, [] => false
  | c :: p', d :: s' => ascii_eqb c d && startswith s' p'
  end.

(** The lower-case form of an ASCII letter; any other character is kept. *)
Definition ascii_lower (c : ascii) : ascii :=
  let n := nat_of_ascii c in
  if ((65 <=? n) && (n <=? 90))%nat then ascii_of_nat (n + 32) else c.

(** [s LIKE p || '%'] in SQLite, the wild cards of [p] escaped: [s] starts
    with [p] up to the case of ASCII letters. *)
Fixpoint like_prefix (s p : str) : bool :=
  match p, s with
  | [], _ => true
  | _ :: _, [] => false
  | c :: p', d :: s' =>
      ascii_eqb (ascii_lower c) (ascii_lower d) && like_prefix s' p'
  end.

(** [str(n)] for a length [n]: the decimal numeral. *)
Definition py_str_nat (n : nat) : str :=
  lit (NilZero.string_of_uint (Nat.to_uint n)).

(** ** Outcomes of code that may raise *)

Inductive exn : Type :=
| ValueError
| ValidationError
| IndexError
| DoesNotExist.

Inductive outcome (A : Type) : Type :=
| Ok (a : A)
| Raise (e : exn)
| OutOfFuel.

Arguments Ok {A} a.
Arguments Raise {A} e.
Arguments OutOfFuel {A}.

Definition bind {A B} (m : outcome A) (k : A -> outcome B) : outcome B :=
  match m with
  | Ok a => k a
  | Raise e => Raise e
  | OutOfFuel => OutOfFuel
  end.

Notation "x <- m ;; k" := (bind m (fun x => k))
  (at level 61, m at next level, right associativity).

(** ** The builtin [int(s, base)] for bases 10 and 36

    Leading and trailing white space is skipped, one sign is allowed, digits
    may be separated by single underscores, at least one digit is required
    and the number of digits is limited.  (The [0x]-style prefixes exist only for bases 0, 2, 8 and 16,
    which this code never uses.) *)

Definition is_space (c : ascii) : bool :=
  let n := nat_of_ascii c in
  ((9 <=? n) && (n <=? 13) || (n =? 32) || (n =? 133) || (n =? 160))%nat.

Definition digit_value (c : ascii) : option Z :=
  let n := Z.of_nat (nat_of_ascii c) in
  if (48 <=? n) && (n <=? 57) then Some (n - 48)
  else if (65 <=? n) && (n <=? 90) then Some (n - 55)
  else if (97 <=? n) && (n <=? 122) then Some (n - 87)
  else None.

Definition underscore : ascii := "_"%char.

Fixpoint lstrip (s : str) : str :=
  match s with
  | c :: r => if is_space c then lstrip r else s
  | [] => []
  end.

(** The digit scan: the value read, how many digits, and what is left.
    [prev_us] says that the previous character was an underscore. *)
Fixpoint scan_digits (base : Z) (s : str) (prev_us : bool) (acc : Z) (nd : nat)
  : option (Z * nat * str) :=
  let stop := if prev_us then None else Some (acc, nd, s) in
  match s with
  | [] => stop
  | c :: r =>
      if ascii_eqb c underscore then
        if prev_us then None else scan_digits base r true acc nd
      else
        match digit_value c with
        | Some d =>
            if d <? base then scan_digits base r false (acc * base + d) (S nd)
            else stop
        | None => stop
        end
  end.

(** The most digits [int] converts in a base that is not a power of two
    (the default of [sys.set_int_max_str_digits]); beyond it [int] raises
    [ValueError]. *)
Definition int_max_str_digits : nat := 4300.

(** What follows the sign: no leading underscore, at least one digit and
    at most [int_max_str_digits] of them, and nothing but white space after
    the digits. *)
Definition py_int_digits (base sign : Z) (s : str) : outcome Z :=
  match s with
  | c :: _ =>
      if ascii_eqb c underscore then Raise ValueError else
      match scan_digits base s false 0 0 with
      | Some (v, nd, rest) =>
          match nd, lstrip rest with
          | S _, [] =>
              if (nd <=? int_max_str_digits)%nat then Ok (sign * v)
              else Raise ValueError
          | _, _ => Raise ValueError
          end
      | None => Raise ValueError
      end
  | [] => Raise ValueError
  end.

Definition py_int (base : Z) (s : str) : outcome Z :=
  match lstrip s with
  | c :: r =>
      if ascii_eqb c "+"%char then py_int_digits base 1 r
      else if ascii_eqb c "-"%char then py_int_digits base (-1) r
      else py_int_digits base 1 (c :: r)
  | [] => Raise ValueError
  end.

(** ** paths/utils.py *)

Definition digits : str := lit "0123456789ABCDEFGHIJKLMNOPQRSTUVWXYZ".

(** The loop of [base36encode]:
    [while not res or num > 0: num, i = divmod(num, 36); res = digits[i] + res]. *)
Fixpoint base36encode_loop (fuel : nat) (num : Z) (res : str) : outcome str :=
  match fuel with
  | O => OutOfFuel
  | S fuel' =>
      if match res with [] => true | _ => false end || (0 <? num) then
        let i := num mod 36 in
        let num' := num / 36 in
        base36encode_loop fuel' num' (nth (Z.to_nat i) digits "0"%char :: res)
      else Ok res
  end.

(** [num] is an [int] by its type here, so the [TypeError] branch is gone. *)
Definition base36encode (num : Z) : outcome str :=
  if negb (0 <=? num) then Raise ValueError
  else base36encode_loop (S (S (Z.to_nat (Z.log2 num)))) num [].

Definition base36decode (base36_string : str) : outcome Z :=
  py_int 36 base36_string.

Definition xstr (s : option str) : str :=
  match s with
  | None => []
  | Some s => s
  end.

(** ** The codec of [BaseNode] *)

Definition encode_base36_id (num : Z) : outcome str :=
  num' <- base36encode num ;;
  Ok (py_str_nat (length num') ++ num').

Definition decode_base36_id (base36_id : str) : outcome Z :=
  base36decode base36_id.

(** Truthiness of an optional string: [None] and [''] are false. *)
Definition truthy_str (p : option str) : bool :=
  match p with
  | Some (_ :: _) => true
  | _ => false
  end.

(** The [while cursor < len(path)] loop of [decode_path_to_ids]. The slice
    [path[cursor:cursor + b36len]] stops at the end of the string. *)
Fixpoint decode_loop (fuel : nat) (path : str) (cursor : nat) (ids : list Z)
  : outcome (list Z) :=
  match fuel with
  | O => OutOfFuel
  | S fuel' =>
      if (cursor <? length path)%nat then
        b36len <- py_int 10 [nth (cursor - 1) path "000"%char] ;;
        let b36str := firstn (Z.to_nat b36len) (skipn cursor path) in
        id_ <- decode_base36_id b36str ;;
        decode_loop fuel' path (cursor + Z.to_nat b36len + 1) (ids ++ [id_])
      else Ok ids
  end.

Definition decode_path_to_ids (path : option str) : outcome (list Z) :=
  if negb (truthy_str path) then Ok []
  else decode_loop (S (length (xstr path))) (xstr path) 1 [].

Fixpoint encode_ids_loop (ids : list Z) (path : str) : outcome str :=
  match ids with
  | [] => Ok path
  | id_ :: ids' =>
      tok <- encode_base36_id id_ ;;
      encode_ids_loop ids' (path ++ tok)
  end.

Definition encode_ids_to_path (ids : list Z) : outcome str :=
  encode_ids_loop ids [].

(** ** The table and the model instance

    A row holds the columns of the model; the table lists the rows in
    primary-key order of insertion. *)

Module DbRow.
Record t : Type := mk { id : Z; parent_id : option Z; path : option str }.
End DbRow.

Definition Store := list DbRow.t.

(** An instance in memory. [parent] is the related object the instance
    holds (its columns); [parent_id] is that object's key, which is how the
    foreign-key descriptor keeps the two. [_original_parent_id] is written by
    [__init__] only, and [adding] is [_state.adding]. *)
Record Node : Type := mkNode {
  id : Z;
  path : option str;
  parent : option DbRow.t;
  _original_parent_id : option Z;
  adding : bool
}.

Definition parent_id (self : Node) : option Z := option_map DbRow.id (parent self).

Definition as_row (self : Node) : DbRow.t :=
  DbRow.mk (id self) (parent_id self) (path self).

Definition with_path (self : Node) (p : option str) : Node :=
  mkNode (id self) p (parent self) (_original_parent_id self) (adding self).

(** Truthiness of an optional key: [None] and [0] are false. *)
Definition truthy_id (k : option Z) : bool :=
  match k with
  | Some k => negb (k =? 0)
  | None => false
  end.

Definition opt_Z_eqb (a b : option Z) : bool :=
  match a, b with
  | Some x, Some y => x =? y
  | None, None => true
  | _, _ => false
  end.

(** *** What the record store does (the ORM and the SQL it emits) *)

(** [objects.get(pk=k)] *)
Fixpoint objects_get (db : Store) (k : Z) : outcome DbRow.t :=
  match db with
  | [] => Raise DoesNotExist
  | r :: db' => if DbRow.id r =? k then Ok r else objects_get db' k
  end.

(** [path__startswith=prefix]: on SQLite the lookup is a [LIKE], which
    ignores the case of ASCII letters; a NULL path matches nothing. *)
Definition path_startswith (prefix : str) (r : DbRow.t) : bool :=
  match DbRow.path r with
  | Some p => like_prefix p prefix
  | None => false
  end.

(** SQL [replace(x, pat, rep)] with a non-empty pattern: every occurrence of
    [pat], found left to right without overlap, becomes [rep]. [skip] counts
    the characters of a match still to be dropped. *)
Fixpoint replace_from (x : str) (skip : nat) (pat rep : str) : str :=
  match x with
  | [] => []
  | c :: x' =>
      match skip with
      | S k => replace_from x' k pat rep
      | O =>
          if startswith x pat then rep ++ replace_from x' (length pat - 1) pat rep
          else c :: replace_from x' 0 pat rep
      end
  end.

(** The SQL function on a non-NULL column value, as SQLite (the backend of
    [runtests.py]) evaluates it: an empty pattern leaves the value as it
    is, and otherwise a NULL replacement gives NULL. *)
Definition sql_replace (x pat : str) (rep : option str) : option str :=
  match pat with
  | [] => Some x
  | _ :: _ =>
      match rep with
      | Some r => Some (replace_from x 0 pat r)
      | None => None
      end
  end.

(** [objects.filter(path__startswith=prefix).update(path=replace(path, pat, rep))] *)
Definition update_replace (prefix pat : str) (rep : option str) (db : Store)
  : Store :=
  map (fun r =>
         if path_startswith prefix r then
           DbRow.mk (DbRow.id r) (DbRow.parent_id r)
                  (sql_replace (xstr (DbRow.path r)) pat rep)
         else r) db.

(** [super().save()]: the row with this key is rewritten, or added. *)
Fixpoint write_row (row : DbRow.t) (db : Store) : Store :=
  match db with
  | [] => [row]
  | r :: db' =>
      if DbRow.id r =? DbRow.id row then row :: db' else r :: write_row row db'
  end.

(** *** The instance and the table as state *)

Definition M (A : Type) : Type := Node * Store -> outcome A * (Node * Store).

Definition ret {A} (a : A) : M A := fun w => (Ok a, w).

Definition lift {A} (o : outcome A) : M A := fun w => (o, w).

Definition raise {A} (e : exn) : M A := lift (Raise e).

Definition mbind {A B} (m : M A) (k : A -> M B) : M B :=
  fun w =>
    match m w with
    | (Ok a, w') => k a w'
    | (Raise e, w') => (Raise e, w')
    | (OutOfFuel, w') => (OutOfFuel, w')
    end.

Notation "x <~ m ;; k" := (mbind m (fun x => k))
  (at level 61, m at next level, right associativity).
Notation "m ;;; k" := (mbind m (fun _ => k))
  (at level 61, right associativity).

Definition get_self : M Node := fun w => (Ok (fst w), w).

Definition set_path (p : option str) : M unit :=
  fun w => (Ok tt, (with_path (fst w) p, snd w)).

Definition objects_update (prefix pat : str) (rep : option str) : M unit :=
  fun w => (Ok tt, (fst w, update_replace prefix pat rep (snd w))).

Definition super_save : M unit :=
  fun w =>
    let self := fst w in
    (Ok tt,
     (mkNode (id self) (path self) (parent self) (_original_parent_id self) false,
      write_row (as_row self) (snd w))).

(** ** The queries of [BaseNode] *)

Definition depth (self : Node) : outcome Z :=
  if negb (truthy_str (path self)) then Ok 0
  else ids <- decode_path_to_ids (path self) ;; Ok (Z.of_nat (length ids)).

Definition get_ancestors_ids (self : Node) (include_self : bool)
  : outcome (list Z) :=
  if negb (truthy_str (path self)) && negb include_self then Ok []
  else
    ids <- decode_path_to_ids (path self) ;;
    Ok (if include_self then ids ++ [id self] else ids).

(** What a lookup hands back: the instance itself, or a row of the table. *)
Inductive found : Type :=
| Self
| Fetched (r : DbRow.t).

(** [ids[k]] for a non-negative [k]. *)
Definition index (ids : list Z) (k : nat) : outcome Z :=
  match nth_error ids k with
  | Some x => Ok x
  | None => Raise IndexError
  end.

Definition get_root (self : Node) (db : Store) : outcome found :=
  if negb (truthy_str (path self)) then Ok Self
  else
    ids <- decode_path_to_ids (path self) ;;
    root_id <- index ids 0 ;;
    r <- objects_get db root_id ;;
    Ok (Fetched r).

(** [a is b] on integers: CPython keeps one object for each integer from
    -5 to 256; a length computed at run time and an argument above that
    range are two objects. *)
Definition int_is (a b : Z) : bool :=
  (a =? b) && (-5 <=? a) && (a <=? 256).

Definition get_ancestor (self : Node) (depth_ : Z) (db : Store) : outcome found :=
  if depth_ <? 0 then Raise ValueError
  else if int_is depth_ 0 then get_root self db
  else
    self_depth <- depth self ;;
    if int_is self_depth depth_ then Ok Self
    else if self_depth <? depth_ then Raise ValueError
    else
      ids <- decode_path_to_ids (path self) ;;
      k <- index ids (Z.to_nat depth_) ;;
      r <- objects_get db k ;;
      Ok (Fetched r).

Definition get_descendants_search_partial (self : Node) : outcome str :=
  tok <- encode_base36_id (id self) ;; Ok (xstr (path self) ++ tok).

Definition get_descendants (self : Node) (db : Store) : outcome (list DbRow.t) :=
  search_partial <- get_descendants_search_partial self ;;
  Ok (filter (path_startswith search_partial) db).


(** [filter(parent_id=k).exclude(pk=self.id)]; [k = None] is [IS NULL]. *)
Definition same_parent_others (k : option Z) (self : Node) (db : Store)
  : list DbRow.t :=
  filter (fun r => opt_Z_eqb (DbRow.parent_id r) k && negb (DbRow.id r =? id self)) db.

(** The result is a query set, or [None]. *)
Definition get_siblings (self : Node) (db : Store) : option (list DbRow.t) :=
  if negb (truthy_id (parent_id self)) then
    Some (same_parent_others None self db)
  else
    let results := same_parent_others (parent_id self) self db in
    match results with
    | _ :: _ => Some results
    | [] => None
    end.

Definition is_child_of (self : Node) (ancestor_id : Z) : outcome bool :=
  if negb (truthy_str (path self)) then Ok false
  else
    ids <- decode_path_to_ids (path self) ;;
    Ok (existsb (Z.eqb ancestor_id) ids).

(** [objects.filter(pk__in=ids)], or [None] when there is no ancestor. *)
Definition get_ancestors (self : Node) (db : Store)
  : outcome (option (list DbRow.t)) :=
  ids <- get_ancestors_ids self false ;;
  match ids with
  | [] => Ok None
  | _ :: _ => Ok (Some (filter (fun r => existsb (Z.eqb (DbRow.id r)) ids) db))
  end.

(** [self.children.exists()]: [children] is the reverse side of [parent]. *)
Definition has_children (self : Node) (db : Store) : bool :=
  existsb (fun r => opt_Z_eqb (DbRow.parent_id r) (Some (id self))) db.

(** The path column of a record whose chain of ancestors is [ids], as the
    encoder writes it. *)
Definition stored_path (ids : list Z) : option str :=
  match encode_ids_to_path ids with
  | Ok p => Some p
  | _ => None
  end.

(** ** [BaseNode.save] *)

Definition save : M unit :=
  self <~ get_self ;;
  (if adding self then
     match parent self with
     | None => set_path None
     | Some p =>
         if truthy_str (DbRow.path p) then
           tok <~ lift (encode_base36_id (DbRow.id p)) ;;
           set_path (Some (xstr (DbRow.path p) ++ tok))
         else
           tok <~ lift (encode_base36_id (DbRow.id p)) ;;
           set_path (Some tok)
     end
   else if negb (opt_Z_eqb (_original_parent_id self) (parent_id self)) then
     b36str <~ lift (encode_base36_id (id self)) ;;
     let search_partial := xstr (path self) ++ b36str in
     let remove_partial := xstr (path self) in
     (match parent self with
      | Some p =>
          if truthy_id (parent_id self) then
            tok <~ lift (encode_base36_id (DbRow.id p)) ;;
            set_path (Some (xstr (DbRow.path p) ++ tok)) ;;;
            self' <~ get_self ;;
            parent_ids <~ lift (decode_path_to_ids (path self')) ;;
            if existsb (Z.eqb (id self')) parent_ids
            then raise ValidationError
            else ret tt
          else set_path None
      | None => set_path None
      end) ;;;
     self' <~ get_self ;;
     objects_update search_partial remove_partial (path self')
   else ret tt) ;;;
  super_save.

(** ** What a base-36 numeral denotes *)

Definition dval (c : ascii) : Z :=
  match digit_value c with
  | Some d => d
  | None => 0
  end.

(** Most significant digit first. *)
Definition b36_val (s : str) : Z :=
  fold_left (fun acc c => acc * 36 + dval c) s 0.

(** A character of the alphabet [0-9A-Z]. *)
Definition upper36 (c : ascii) : Prop := In c digits.

(** The digit character of a length below ten. *)
Definition len_digit (k : nat) : ascii := ascii_of_nat (48 + k).

(** Identifiers whose numeral has at most nine characters. *)
Definition in_contract (n : Z) : Prop := 0 <= n < 36 ^ 9.

(** The numeral built so far by the loop: digits of [n] with no leading
    zero, empty for zero, and as long as [n] needs. *)
Record numeral_of (n : Z) (s : str) : Prop := {
  num_alphabet : Forall upper36 s;
  num_value : b36_val s = n;
  num_head : forall c r, s = c :: r -> c <> "0"%char;
  num_upper : n < 36 ^ Z.of_nat (length s);
  num_lower : s <> [] -> 36 ^ (Z.of_nat (length s) - 1) <= n
}.

(** The numeral of a whole identifier: as above, with ["0"] for zero. *)
Record base36_of (n : Z) (s : str) : Prop := {
  b36_alphabet : Forall upper36 s;
  b36_value : b36_val s = n;
  b36_nonempty : s <> [];
  b36_zero : n = 0 -> s = ["0"%char];
  b36_head : 0 < n -> forall c r, s = c :: r -> c <> "0"%char;
  b36_upper : n < 36 ^ Z.of_nat (length s);
  b36_lower : 36 ^ (Z.of_nat (length s) - 1) <= n \/ s = ["0"%char]
}.

(** ** Tokens and well-formed paths *)

(** A token body as [decode_path_to_ids] can read it back. *)
Definition good_body (body : str) : Prop :=
  (1 <= length body <= 9)%nat /\ Forall upper36 body.

Definition token (body : str) : str := len_digit (length body) :: body.

(** The body of a token as the encoder writes it: no leading zero, except
    in the numeral of zero. *)
Definition canonical (body : str) : Prop :=
  good_body body /\ forall c r, body = c :: r -> c = "0"%char -> r = [].

(** A well-formed path: a run of tokens with canonical bodies. *)
Inductive well_formed : str -> Prop :=
| wf_empty : well_formed []
| wf_token (body rest : str) :
    canonical body -> well_formed rest -> well_formed (token body ++ rest).

(** ** Proof steps *)

(** Runs [save] as far as the next call that is not a plain state step. *)
Ltac run_save :=
  cbv beta iota zeta delta
    [save mbind get_self lift ret raise set_path objects_update super_save
     parent_id as_row with_path truthy_id option_map negb fst snd
     id path parent _original_parent_id adding].

(** Shows that a character is one of [digits]. *)
Ltac solve_upper36 :=
  unfold upper36, digits; cbn; repeat (first [left; reflexivity | right]).

(** ** Successful saves *)

(** How a successful [save] of an existing record went. *)
Inductive saved_existing (self : Node) : Prop :=
| saved_same :
    _original_parent_id self = parent_id self ->
    saved_existing self
| saved_moved (p : DbRow.t) (tok_s tok_p : str) (ids : list Z) :
    parent self = Some p ->
    _original_parent_id self <> Some (DbRow.id p) ->
    DbRow.id p <> 0 ->
    encode_base36_id (id self) = Ok tok_s ->
    encode_base36_id (DbRow.id p) = Ok tok_p ->
    decode_path_to_ids (Some (xstr (DbRow.path p) ++ tok_p)) = Ok ids ->
    existsb (Z.eqb (id self)) ids = false ->
    saved_existing self
| saved_unparented (tok_s : str) :
    _original_parent_id self <> parent_id self ->
    truthy_id (parent_id self) = false ->
    encode_base36_id (id self) = Ok tok_s ->
    saved_existing self.

(** * Facts about characters *)

Lemma digits_nth (i : Z) :
  0 <= i < 36 ->
  upper36 (nth (Z.to_nat i) digits "0"%char) /\
  digit_value (nth (Z.to_nat i) digits "0"%char) = Some i.
Proof.
  intros Hi.
  assert (Hk : (Z.to_nat i < 36)%nat) by lia.
  rewrite <- (Z2Nat.id i) at 3 by lia.
  revert Hk. generalize (Z.to_nat i) as k. intros k Hk.
  unfold upper36.
  do 36 (destruct k as [|k]; [split; [vm_compute; tauto | reflexivity] |]).
  lia.
Qed.

Lemma upper36_digit_value (c : ascii) :
  upper36 c -> exists d, digit_value c = Some d /\ 0 <= d < 36.
Proof.
  unfold upper36, digits. cbn.
  intros H.
  repeat (destruct H as [H | H];
          [subst c; eexists; split; [reflexivity | cbv; split; congruence] |]).
  contradiction.
Qed.

Lemma upper36_plain (c : ascii) :
  upper36 c ->
  is_space c = false /\ ascii_eqb c "+"%char = false /\
  ascii_eqb c "-"%char = false /\ ascii_eqb c underscore = false.
Proof.
  unfold upper36, digits. cbn.
  intros H.
  repeat (destruct H as [H | H]; [subst c; repeat split |]).
  contradiction.
Qed.

Lemma upper36_zero (c : ascii) :
  upper36 c -> digit_value c = Some 0 -> c = "0"%char.
Proof.
  unfold upper36, digits. cbn.
  intros H.
  repeat (destruct H as [H | H];
          [subst c; intros E; first [reflexivity | discriminate E] |]).
  contradiction.
Qed.

Lemma py_str_nat_digit (k : nat) :
  (k <= 9)%nat -> py_str_nat k = [len_digit k].
Proof.
  intros Hk. do 10 (destruct k as [|k]; [reflexivity |]). lia.
Qed.

Lemma py_int_len_digit (k : nat) :
  (k <= 9)%nat -> py_int 10 [len_digit k] = Ok (Z.of_nat k).
Proof.
  intros Hk. do 10 (destruct k as [|k]; [reflexivity |]). lia.
Qed.

(** * [base36encode] is total and writes the canonical numeral *)

Lemma b36_val_snoc (s : str) (c : ascii) :
  b36_val (s ++ [c]) = b36_val s * 36 + dval c.
Proof. unfold b36_val. rewrite fold_left_app. reflexivity. Qed.

Lemma numeral_of_nil_zero (n : Z) : numeral_of n [] -> n = 0.
Proof. intros H. symmetry. exact (num_value _ _ H). Qed.

Lemma numeral_of_snoc (n : Z) (pre : str) :
  0 < n ->
  numeral_of (n / 36) pre ->
  numeral_of n (pre ++ [nth (Z.to_nat (n mod 36)) digits "0"%char]).
Proof.
  intros Hn [Ha Hv Hh Hu Hl].
  assert (Hm : 0 <= n mod 36 < 36) by (apply Z.mod_pos_bound; lia).
  destruct (digits_nth _ Hm) as [Hup Hdv].
  assert (Hdiv : n = 36 * (n / 36) + n mod 36) by (apply Z.div_mod; lia).
  assert (Hlen : Z.of_nat (length (pre ++ [nth (Z.to_nat (n mod 36)) digits "0"%char]))
                 = Z.of_nat (length pre) + 1)
    by (rewrite length_app; cbn; lia).
  constructor.
  - apply Forall_app. split; [exact Ha | constructor; [exact Hup | constructor]].
  - rewrite b36_val_snoc, Hv. unfold dval. rewrite Hdv. lia.
  - intros c r E. destruct pre as [|c0 pre'].
    + cbn in E. injection E as E _. subst c.
      intros Hz.
      assert (Hd0 : digit_value "0"%char = Some (n mod 36))
        by (rewrite <- Hz; exact Hdv).
      change (Some 0 = Some (n mod 36)) in Hd0.
      change (0 = n / 36) in Hv.
      injection Hd0 as Hd0. lia.
    + cbn in E. injection E as E _. subst c. apply (Hh c0 pre' eq_refl).
  - rewrite Hlen, Z.pow_add_r by lia. lia.
  - intros _. rewrite Hlen. replace (Z.of_nat (length pre) + 1 - 1)
      with (Z.of_nat (length pre)) by lia.
    destruct pre as [|c0 pre'].
    + cbn. lia.
    + assert (Hl' := Hl ltac:(discriminate)).
      replace (Z.of_nat (length (c0 :: pre')))
        with ((Z.of_nat (length (c0 :: pre')) - 1) + 1) by lia.
      rewrite Z.pow_add_r by (cbn [length]; lia). lia.
Qed.

(** Once something has been written, the loop prepends the numeral of what
    is left of [num]. *)
Lemma base36encode_loop_spec (f : nat) :
  forall (num : Z) (res : str),
    0 <= num < 2 ^ Z.of_nat f ->
    res <> [] ->
    exists pre,
      base36encode_loop (S f) num res = Ok (pre ++ res) /\ numeral_of num pre.
Proof.
  induction f as [|f IH]; intros num res Hnum Hres.
  - assert (num = 0) by (cbn in Hnum; lia). subst num.
    exists []. split.
    + destruct res; [contradiction | reflexivity].
    + constructor; cbn; try lia; try constructor; try discriminate; congruence.
  - destruct (Z.eq_dec num 0) as [-> | Hnz].
    + exists []. split.
      * destruct res; [contradiction | reflexivity].
      * constructor; cbn; try lia; try constructor; try discriminate; congruence.
    + assert (Hpos : 0 < num) by lia.
      assert (Hq : 0 <= num / 36 < 2 ^ Z.of_nat f).
      { split; [apply Z.div_pos; lia |].
        rewrite Nat2Z.inj_succ, Z.pow_succ_r in Hnum by lia.
        apply Z.div_lt_upper_bound; lia. }
      set (d := nth (Z.to_nat (num mod 36)) digits "0"%char).
      destruct (IH (num / 36) (d :: res) Hq ltac:(discriminate)) as [pre [E Hp]].
      exists (pre ++ [d]). split.
      * change (base36encode_loop (S (S f)) num res)
          with (if match res with [] => true | _ => false end || (0 <? num)
                then base36encode_loop (S f) (num / 36) (d :: res)
                else Ok res).
        assert (Hc : (0 <? num) = true) by (apply Z.ltb_lt; lia).
        rewrite Hc, orb_true_r, E, <- app_assoc. reflexivity.
      * apply numeral_of_snoc; assumption.
Qed.

Lemma base36encode_total (n : Z) :
  0 <= n -> exists s, base36encode n = Ok s /\ base36_of n s.
Proof.
  intros Hn. unfold base36encode.
  assert (Hc : negb (0 <=? n) = false)
    by (apply negb_false_iff, Z.leb_le; exact Hn).
  rewrite Hc.
  set (d := nth (Z.to_nat (n mod 36)) digits "0"%char).
  assert (Hq : 0 <= n / 36 < 2 ^ Z.of_nat (Z.to_nat (Z.log2 n))).
  { split; [apply Z.div_pos; lia |].
    rewrite Z2Nat.id by apply Z.log2_nonneg.
    destruct (Z.eq_dec n 0) as [-> | Hnz]; [cbn; lia |].
    assert (Hlog := Z.log2_spec n ltac:(lia)).
    rewrite Z.pow_succ_r in Hlog by apply Z.log2_nonneg.
    apply Z.div_lt_upper_bound; lia. }
  destruct (base36encode_loop_spec _ (n / 36) [d] Hq ltac:(discriminate))
    as [pre [E Hp]].
  exists (pre ++ [d]). split.
  - change (base36encode_loop (S (S (Z.to_nat (Z.log2 n)))) n [])
      with (base36encode_loop (S (Z.to_nat (Z.log2 n))) (n / 36) [d]).
    exact E.
  - destruct (Z.eq_dec n 0) as [-> | Hnz].
    + assert (pre = []).
      { destruct pre as [|c r]; [reflexivity |].
        assert (Hl := num_lower _ _ Hp ltac:(discriminate)).
        change (0 / 36) with 0 in Hl.
        assert (0 < 36 ^ (Z.of_nat (length (c :: r)) - 1))
          by (apply Z.pow_pos_nonneg; cbn [length]; lia).
        lia. }
      subst pre. constructor; cbn; try lia; try discriminate; try tauto.
      constructor; [left; reflexivity | constructor].
    + assert (Hs := numeral_of_snoc n pre ltac:(lia) Hp).
      fold d in Hs. destruct Hs as [Ha Hv Hh Hu Hl].
      constructor; try assumption.
      * destruct pre; discriminate.
      * lia.
      * intros _. exact Hh.
      * left. apply Hl. destruct pre; discriminate.
Qed.

Lemma base36_of_length (n : Z) (s : str) :
  in_contract n -> base36_of n s -> (1 <= length s <= 9)%nat.
Proof.
  intros [Hn Hlt] H. split.
  - destruct s; [exfalso; apply (b36_nonempty _ _ H); reflexivity | cbn; lia].
  - destruct (b36_lower _ _ H) as [Hl | ->]; [| cbn; lia].
    destruct (le_lt_dec (length s) 9) as [Hle | Hgt]; [exact Hle | exfalso].
    assert (36 ^ 9 <= 36 ^ (Z.of_nat (length s) - 1))
      by (apply Z.pow_le_mono_r; lia).
    lia.
Qed.

(** * [int(body, 36)] on a numeral over [0-9A-Z] *)

Lemma scan_digits_upper36 (s : str) :
  Forall upper36 s ->
  forall acc nd,
    scan_digits 36 s false acc nd
    = Some (fold_left (fun a c => a * 36 + dval c) s acc, (nd + length s)%nat, []).
Proof.
  induction 1 as [|c r Hc Hr IH]; intros acc nd.
  - cbn. rewrite Nat.add_0_r. reflexivity.
  - destruct (upper36_plain c Hc) as (_ & _ & _ & Hus).
    destruct (upper36_digit_value c Hc) as [d [Hd Hlt]].
    cbn [scan_digits fold_left]. rewrite Hus, Hd.
    assert (Hb : (d <? 36) = true) by (apply Z.ltb_lt; lia).
    rewrite Hb, IH. unfold dval. rewrite Hd. cbn [length].
    rewrite Nat.add_succ_r. reflexivity.
Qed.

Lemma base36decode_upper36 (s : str) :
  s <> [] -> Forall upper36 s -> (length s <= int_max_str_digits)%nat ->
  base36decode s = Ok (b36_val s).
Proof.
  intros Hne Hs Hlen. destruct s as [|c r]; [contradiction |].
  assert (Hc : upper36 c) by (inversion Hs; assumption).
  destruct (upper36_plain c Hc) as (Hsp & Hplus & Hminus & Hus).
  unfold base36decode, py_int, py_int_digits.
  cbn [lstrip]. rewrite Hsp, Hplus, Hminus, Hus.
  rewrite scan_digits_upper36 by exact Hs.
  cbn [Nat.add]. destruct (length (c :: r)) as [|n] eqn:El; [discriminate El |].
  cbn [lstrip].
  assert (Hle : (S n <=? int_max_str_digits)%nat = true)
    by (apply Nat.leb_le; exact Hlen).
  rewrite Hle, Z.mul_1_l. reflexivity.
Qed.

(** A numeral of at most nine characters is within the limit. *)
Lemma short_numeral_fits (s : str) :
  (length s <= 9)%nat -> (length s <= int_max_str_digits)%nat.
Proof. unfold int_max_str_digits. lia. Qed.

(** Beyond the limit [int] raises. *)
Lemma base36decode_too_long (s : str) :
  Forall upper36 s -> (int_max_str_digits < length s)%nat ->
  base36decode s = Raise ValueError.
Proof.
  intros Hs Hlen. destruct s as [|c r]; [cbn in Hlen; lia |].
  assert (Hc : upper36 c) by (inversion Hs; assumption).
  destruct (upper36_plain c Hc) as (Hsp & Hplus & Hminus & Hus).
  unfold base36decode, py_int, py_int_digits.
  cbn [lstrip]. rewrite Hsp, Hplus, Hminus, Hus.
  rewrite scan_digits_upper36 by exact Hs.
  cbn [Nat.add]. destruct (length (c :: r)) as [|n] eqn:El; [discriminate El |].
  cbn [lstrip].
  assert (Hle : (S n <=? int_max_str_digits)%nat = false)
    by (apply Nat.leb_gt; exact Hlen).
  rewrite Hle. reflexivity.
Qed.

(** * The encoder on identifiers within the contract *)

Lemma encode_base36_id_spec (n : Z) :
  in_contract n ->
  exists body,
    encode_base36_id n = Ok (token body) /\ base36_of n body /\ good_body body.
Proof.
  intros Hn.
  destruct (base36encode_total n ltac:(destruct Hn; assumption)) as [body [E Hb]].
  assert (Hlen := base36_of_length n body Hn Hb).
  exists body. split; [| split; [exact Hb | split; [exact Hlen |]]].
  - unfold encode_base36_id. rewrite E. cbn [bind].
    rewrite py_str_nat_digit by lia. reflexivity.
  - exact (b36_alphabet _ _ Hb).
Qed.

Lemma encode_ids_loop_acc (ids : list Z) :
  forall acc,
    encode_ids_loop ids acc = (r <- encode_ids_loop ids [] ;; Ok (acc ++ r)).
Proof.
  induction ids as [|n ids IH]; intros acc.
  - cbn. rewrite app_nil_r. reflexivity.
  - cbn [encode_ids_loop]. destruct (encode_base36_id n) as [tok | e |]; cbn [bind app];
      [| reflexivity | reflexivity].
    rewrite (IH (acc ++ tok)), (IH tok).
    destruct (encode_ids_loop ids []) as [r | e |]; cbn [bind];
      [rewrite app_assoc |..]; reflexivity.
Qed.

Lemma encode_ids_to_path_cons (n : Z) (ids : list Z) :
  encode_ids_to_path (n :: ids)
  = (tok <- encode_base36_id n ;; r <- encode_ids_to_path ids ;; Ok (tok ++ r)).
Proof.
  unfold encode_ids_to_path. cbn [encode_ids_loop].
  destruct (encode_base36_id n) as [tok | e |]; cbn [bind app]; try reflexivity.
  apply encode_ids_loop_acc.
Qed.

Lemma encode_ids_to_path_app (a b : list Z) :
  encode_ids_to_path (a ++ b)
  = (pa <- encode_ids_to_path a ;; pb <- encode_ids_to_path b ;; Ok (pa ++ pb)).
Proof.
  induction a as [|n a IH].
  - cbn [app]. change (encode_ids_to_path []) with (@Ok str []). cbn [bind].
    destruct (encode_ids_to_path b); reflexivity.
  - cbn [app]. rewrite !encode_ids_to_path_cons, IH.
    destruct (encode_base36_id n) as [tok | e |]; cbn [bind]; try reflexivity.
    destruct (encode_ids_to_path a) as [pa | e |]; cbn [bind]; try reflexivity.
    destruct (encode_ids_to_path b) as [pb | e |]; cbn [bind]; try reflexivity.
    rewrite app_assoc. reflexivity.
Qed.

(** The path of identifiers within the contract is a run of tokens. *)
Lemma encode_ids_to_path_spec (ids : list Z) :
  Forall in_contract ids ->
  exists bodies,
    encode_ids_to_path ids = Ok (concat (map token bodies)) /\
    Forall good_body bodies /\ map b36_val bodies = ids.
Proof.
  induction 1 as [|n ids Hn Hids IH].
  - exists []. split; [reflexivity | split; [constructor | reflexivity]].
  - destruct IH as [bodies [E [Hg Hv]]].
    destruct (encode_base36_id_spec n Hn) as [body [Et [Hb Hgb]]].
    exists (body :: bodies). split; [| split].
    + rewrite encode_ids_to_path_cons, Et, E. reflexivity.
    + constructor; assumption.
    + cbn [map]. rewrite Hv, (b36_value _ _ Hb). reflexivity.
Qed.

(** * The decoder on a run of tokens *)

Lemma decode_loop_token (fuel : nat) (pre body rest : str) (acc : list Z) :
  good_body body ->
  decode_loop (S fuel) (pre ++ token body ++ rest) (length pre + 1) acc
  = decode_loop fuel (pre ++ token body ++ rest)
                (length (pre ++ token body) + 1) (acc ++ [b36_val body]).
Proof.
  intros [Hlen Hup].
  cbn [decode_loop].
  assert (Hc : (length pre + 1 <? length (pre ++ token body ++ rest))%nat = true).
  { apply Nat.ltb_lt. rewrite !length_app. unfold token. cbn [length]. lia. }
  rewrite Hc.
  replace (length pre + 1 - 1)%nat with (length pre) by lia.
  unfold token at 1 2. cbn [app].
  rewrite nth_middle, py_int_len_digit by lia. cbn [bind].
  rewrite Nat2Z.id.
  replace (skipn (length pre + 1) (pre ++ len_digit (length body) :: body ++ rest))
    with (body ++ rest).
  2:{ replace (pre ++ len_digit (length body) :: body ++ rest)
        with ((pre ++ [len_digit (length body)]) ++ body ++ rest)
        by (rewrite <- app_assoc; reflexivity).
      rewrite skipn_app, skipn_all2 by (rewrite length_app; cbn; lia).
      rewrite length_app. cbn [length app].
      replace (length pre + 1 - (length pre + 1))%nat with 0%nat by lia.
      reflexivity. }
  rewrite firstn_app, firstn_all, Nat.sub_diag. cbn [firstn]. rewrite app_nil_r.
  unfold decode_base36_id.
  rewrite base36decode_upper36
    by first [assumption | apply short_numeral_fits; lia
             | destruct body; [cbn in Hlen; lia | discriminate]].
  cbn [bind]. f_equal.
  rewrite length_app. unfold token. cbn [length]. lia.
Qed.

Lemma decode_loop_tokens (bodies : list str) :
  Forall good_body bodies ->
  forall (fuel : nat) (pre suffix : str) (acc : list Z),
    decode_loop (length bodies + fuel)
                (pre ++ concat (map token bodies) ++ suffix) (length pre + 1) acc
    = decode_loop fuel (pre ++ concat (map token bodies) ++ suffix)
                  (length (pre ++ concat (map token bodies)) + 1)
                  (acc ++ map b36_val bodies).
Proof.
  induction 1 as [|body bodies Hb Hbs IH]; intros fuel pre suffix acc.
  - cbn [map concat length Nat.add app]. rewrite !app_nil_r. reflexivity.
  - cbn [map concat length Nat.add].
    rewrite <- !app_assoc.
    rewrite decode_loop_token by exact Hb.
    rewrite (app_assoc pre (token body)), IH, <- !app_assoc.
    reflexivity.
Qed.

Lemma tokens_length (bodies : list str) :
  Forall good_body bodies ->
  (2 * length bodies <= length (concat (map token bodies)))%nat.
Proof.
  induction 1 as [|body bodies [Hlen _] _ IH]; [cbn; lia |].
  cbn [map concat length]. rewrite length_app. unfold token at 1.
  cbn [length]. lia.
Qed.

(** The loop is over once the cursor has left the string. *)
Lemma decode_loop_done (fuel : nat) (p : str) (cursor : nat) (acc : list Z) :
  (length p <= cursor)%nat -> decode_loop (S fuel) p cursor acc = Ok acc.
Proof.
  intros H. cbn [decode_loop].
  assert (Hc : (cursor <? length p)%nat = false) by (apply Nat.ltb_ge; exact H).
  rewrite Hc. reflexivity.
Qed.

Lemma decode_tokens (bodies : list str) :
  Forall good_body bodies ->
  decode_path_to_ids (Some (concat (map token bodies)))
  = Ok (map b36_val bodies).
Proof.
  intros Hb. unfold decode_path_to_ids.
  destruct (concat (map token bodies)) as [|c p] eqn:E.
  - destruct bodies as [|b bs]; [reflexivity | discriminate E].
  - cbn [truthy_str negb xstr]. rewrite <- E.
    assert (Hl := tokens_length bodies Hb).
    pose proof (decode_loop_tokens bodies Hb
                  (S (length (concat (map token bodies))) - length bodies)
                  [] [] []) as H.
    cbn [app length Nat.add] in H. rewrite app_nil_r in H.
    replace (length bodies + (S (length (concat (map token bodies))) - length bodies))%nat
      with (S (length (concat (map token bodies)))) in H by lia.
    rewrite H.
    replace (S (length (concat (map token bodies))) - length bodies)%nat
      with (S (length (concat (map token bodies)) - length bodies)) by lia.
    apply decode_loop_done. lia.
Qed.

(** Decoding undoes encoding, for identifiers within the contract. *)
Lemma decode_encode (ids : list Z) :
  Forall in_contract ids ->
  exists p, encode_ids_to_path ids = Ok p /\ decode_path_to_ids (Some p) = Ok ids.
Proof.
  intros Hids.
  destruct (encode_ids_to_path_spec ids Hids) as [bodies [E [Hg Hv]]].
  exists (concat (map token bodies)). split; [exact E |].
  rewrite decode_tokens by exact Hg. rewrite Hv. reflexivity.
Qed.

(** * The numeral of a value is unique *)

Lemma b36_val_bounds (s : str) :
  Forall upper36 s -> 0 <= b36_val s < 36 ^ Z.of_nat (length s).
Proof.
  induction s as [|c s IH] using rev_ind; intros Hs.
  - cbn. lia.
  - apply Forall_app in Hs. destruct Hs as [Hs Hc].
    inversion Hc as [|? ? Hc' _]; subst.
    destruct (upper36_digit_value c Hc') as [d [Hd Hlt]].
    specialize (IH Hs).
    rewrite b36_val_snoc, length_app. unfold dval. rewrite Hd.
    cbn [length]. rewrite Nat2Z.inj_add, Z.pow_add_r by lia.
    change (36 ^ Z.of_nat 1) with 36. lia.
Qed.

Lemma fold_b36_acc (s : str) (acc : Z) :
  fold_left (fun a c => a * 36 + dval c) s acc
  = acc * 36 ^ Z.of_nat (length s) + b36_val s.
Proof.
  unfold b36_val. revert acc.
  induction s as [|c s IH]; intros acc.
  - cbn. lia.
  - cbn [fold_left length]. rewrite IH, (IH (0 * 36 + dval c)).
    rewrite Nat2Z.inj_succ, Z.pow_succ_r by lia. ring.
Qed.

Lemma b36_val_cons (c : ascii) (r : str) :
  b36_val (c :: r) = dval c * 36 ^ Z.of_nat (length r) + b36_val r.
Proof.
  unfold b36_val at 1. cbn [fold_left]. rewrite fold_b36_acc. ring.
Qed.

Lemma upper36_nth_dval (c : ascii) :
  upper36 c -> nth (Z.to_nat (dval c)) digits "0"%char = c.
Proof.
  unfold upper36, digits. cbn.
  intros H.
  repeat (destruct H as [H | H]; [subst c; reflexivity |]).
  contradiction.
Qed.

Lemma dval_inj (c d : ascii) :
  upper36 c -> upper36 d -> dval c = dval d -> c = d.
Proof.
  intros Hc Hd E.
  rewrite <- (upper36_nth_dval c Hc), <- (upper36_nth_dval d Hd), E.
  reflexivity.
Qed.

Lemma dval_range (c : ascii) : upper36 c -> 0 <= dval c < 36.
Proof.
  intros Hc. destruct (upper36_digit_value c Hc) as [d [Hd Hlt]].
  unfold dval. rewrite Hd. exact Hlt.
Qed.

Lemma dval_nonzero (c : ascii) : upper36 c -> c <> "0"%char -> 0 < dval c.
Proof.
  intros Hc Hnz. assert (Hr := dval_range c Hc).
  destruct (Z.eq_dec (dval c) 0) as [E | E]; [| lia].
  exfalso. apply Hnz. apply upper36_zero; [exact Hc |].
  destruct (upper36_digit_value c Hc) as [d [Hd _]].
  unfold dval in E. rewrite Hd in E. subst d. exact Hd.
Qed.

(** A numeral without a leading zero is positive, unless it is empty. *)
Lemma b36_val_positive (c : ascii) (r : str) :
  Forall upper36 (c :: r) -> c <> "0"%char ->
  36 ^ Z.of_nat (length r) <= b36_val (c :: r).
Proof.
  intros Hs Hnz. inversion Hs as [|? ? Hc Hr]; subst.
  assert (Hd := dval_nonzero c Hc Hnz).
  assert (Hb := b36_val_bounds r Hr).
  assert (0 < 36 ^ Z.of_nat (length r)) by (apply Z.pow_pos_nonneg; lia).
  rewrite b36_val_cons. nia.
Qed.

Lemma numeral_unique (s : str) :
  forall t,
    Forall upper36 s -> Forall upper36 t ->
    (forall c r, s = c :: r -> c <> "0"%char) ->
    (forall c r, t = c :: r -> c <> "0"%char) ->
    b36_val s = b36_val t ->
    s = t.
Proof.
  induction s as [|c s IH] using rev_ind; intros t Hs Ht Hsh Hth E.
  - destruct t as [|d t]; [reflexivity | exfalso].
    assert (Hp := b36_val_positive d t Ht (Hth d t eq_refl)).
    assert (0 < 36 ^ Z.of_nat (length t)) by (apply Z.pow_pos_nonneg; lia).
    change (b36_val []) with 0 in E. lia.
  - destruct t as [|d t] using rev_ind.
    + exfalso.
      destruct (s ++ [c]) as [|c0 r] eqn:Es; [destruct s; discriminate Es |].
      assert (Hp := b36_val_positive c0 r Hs (Hsh c0 r eq_refl)).
      assert (0 < 36 ^ Z.of_nat (length r)) by (apply Z.pow_pos_nonneg; lia).
      change (b36_val []) with 0 in E. lia.
    + clear IHt.
      apply Forall_app in Hs. destruct Hs as [Hs Hc].
      apply Forall_app in Ht. destruct Ht as [Ht Hd].
      inversion Hc as [|? ? Hc' _]; subst.
      inversion Hd as [|? ? Hd' _]; subst.
      rewrite !b36_val_snoc in E.
      assert (Hrc := dval_range c Hc'). assert (Hrd := dval_range d Hd').
      assert (Ev : b36_val s = b36_val t) by lia.
      assert (Ec : dval c = dval d) by lia.
      rewrite (dval_inj c d Hc' Hd' Ec). f_equal.
      apply IH; try assumption.
      * intros c0 r ->. apply (Hsh c0 (r ++ [c])). reflexivity.
      * intros c0 r ->. apply (Hth c0 (r ++ [d])). reflexivity.
Qed.

(** The encoder writes back a canonical body. *)
Lemma base36encode_canonical (body : str) :
  canonical body -> base36encode (b36_val body) = Ok body.
Proof.
  intros [[Hlen Hup] Hzero].
  assert (Hb := b36_val_bounds body Hup).
  destruct (base36encode_total (b36_val body) ltac:(lia)) as [rep [E Hrep]].
  rewrite E. f_equal.
  destruct body as [|c r]; [cbn in Hlen; lia |].
  destruct (ascii_dec c "0"%char) as [-> | Hnz].
  - rewrite (Hzero _ _ eq_refl eq_refl) in *.
    apply (b36_zero _ _ Hrep). reflexivity.
  - assert (Hp := b36_val_positive c r Hup Hnz).
    assert (0 < 36 ^ Z.of_nat (length r)) by (apply Z.pow_pos_nonneg; lia).
    apply numeral_unique.
    + exact (b36_alphabet _ _ Hrep).
    + exact Hup.
    + apply (b36_head _ _ Hrep). lia.
    + intros c0 r0 E0. injection E0 as <- _. exact Hnz.
    + exact (b36_value _ _ Hrep).
Qed.

Lemma canonical_in_contract (body : str) :
  canonical body -> in_contract (b36_val body).
Proof.
  intros [[Hlen Hup] _]. assert (Hb := b36_val_bounds body Hup).
  assert (36 ^ Z.of_nat (length body) <= 36 ^ 9)
    by (apply Z.pow_le_mono_r; lia).
  unfold in_contract. lia.
Qed.

Lemma encode_canonical_bodies (bodies : list str) :
  Forall canonical bodies ->
  encode_ids_to_path (map b36_val bodies) = Ok (concat (map token bodies)).
Proof.
  induction 1 as [|body bodies Hb Hbs IH]; [reflexivity |].
  cbn [map concat]. rewrite encode_ids_to_path_cons, IH.
  unfold encode_base36_id. rewrite (base36encode_canonical body Hb).
  cbn [bind]. destruct Hb as [[Hlen _] _].
  rewrite py_str_nat_digit by lia. reflexivity.
Qed.

Lemma well_formed_bodies (p : str) :
  well_formed p ->
  exists bodies, Forall canonical bodies /\ p = concat (map token bodies).
Proof.
  induction 1 as [|body rest Hb _ [bodies [Hbs ->]]].
  - exists []. split; [constructor | reflexivity].
  - exists (body :: bodies). split; [constructor; assumption | reflexivity].
Qed.

(** The encoder writes well-formed paths. *)
Lemma encode_well_formed (ids : list Z) (p : str) :
  Forall in_contract ids -> encode_ids_to_path ids = Ok p -> well_formed p.
Proof.
  intros Hids. revert p.
  induction Hids as [|n ids Hn Hids IH]; intros p E.
  - injection E as <-. constructor.
  - rewrite encode_ids_to_path_cons in E.
    destruct (encode_base36_id_spec n Hn) as [body [Et [Hb Hg]]].
    rewrite Et in E. cbn [bind] in E.
    destruct (encode_ids_to_path ids) as [r | e |]; try discriminate E.
    cbn [bind] in E. injection E as <-.
    constructor; [| apply IH; reflexivity].
    split; [exact Hg |].
    intros c r0 -> ->.
    destruct (Z.eq_dec n 0) as [-> | Hnz].
    + assert (Hz := b36_zero _ _ Hb eq_refl). injection Hz as ->. reflexivity.
    + exfalso. destruct Hn as [Hn0 _].
      apply (b36_head _ _ Hb ltac:(lia) "0"%char r0); reflexivity.
Qed.

(** * The round trip of the codec *)

(** C1, as stated, fails: the identifier [36 ^ 9] is non-negative, its
    numeral has ten characters, the encoder writes the length as the two
    characters [10], and the decoder, which reads one length character,
    raises on the result. *)
Lemma roundtrip_fails_at_ten_characters :
  0 <= 36 ^ 9 /\
  encode_ids_to_path [36 ^ 9] = Ok (lit "101000000000") /\
  decode_path_to_ids (Some (lit "101000000000")) = Raise ValueError.
Proof. split; [lia | split; vm_compute; reflexivity]. Qed.

(** C1 (amended): for every list of identifiers whose base-36 numerals have
    at most nine characters, encoding succeeds and decoding the result gives
    the list back; and for every path that is the encoding of such a list,
    decoding succeeds and encoding the result gives the path back. *)
Theorem codec_roundtrip :
  (forall ids, Forall in_contract ids ->
     exists p, encode_ids_to_path ids = Ok p /\
               decode_path_to_ids (Some p) = Ok ids) /\
  (forall p, well_formed p ->
     exists ids, decode_path_to_ids (Some p) = Ok ids /\
                 encode_ids_to_path ids = Ok p).
Proof.
  split.
  - exact decode_encode.
  - intros p Hp.
    destruct (well_formed_bodies p Hp) as [bodies [Hb ->]].
    exists (map b36_val bodies). split.
    + apply decode_tokens.
      apply Forall_impl with (P := canonical); [intros b [Hg _]; exact Hg | exact Hb].
    + apply encode_canonical_bodies. exact Hb.
Qed.

Lemma codec_roundtrip_witness :
  (exists p, encode_ids_to_path [0; 1; 37; 36 ^ 9 - 1] = Ok p /\
             decode_path_to_ids (Some p) = Ok [0; 1; 37; 36 ^ 9 - 1]) /\
  (exists ids, decode_path_to_ids (Some (lit "11211")) = Ok ids /\
               encode_ids_to_path ids = Ok (lit "11211")).
Proof.
  split.
  - apply (proj1 codec_roundtrip).
    repeat constructor; vm_compute; congruence.
  - apply (proj2 codec_roundtrip).
    apply (encode_well_formed [1; 37]); [| reflexivity].
    repeat constructor; vm_compute; congruence.
Defined.

(** * The format of a token *)

(** C5, as stated, fails: the numeral of [36 ^ 9] has ten characters, which
    is within thirty-five, yet no single character whose base-36 value is
    that length starts the token: the token starts with the decimal [10]. *)
Lemma length_prefix_is_not_base36 :
  exists rep,
    base36encode (36 ^ 9) = Ok rep /\ (length rep <= 35)%nat /\
    forall d, digit_value d = Some (Z.of_nat (length rep)) ->
              encode_base36_id (36 ^ 9) <> Ok (d :: rep).
Proof.
  exists (lit "1000000000").
  split; [vm_compute; reflexivity | split; [vm_compute; lia |]].
  intros d _ E.
  change (encode_base36_id (36 ^ 9)) with (Ok (lit "101000000000")) in E.
  discriminate E.
Qed.

(** C5 (amended): for every non-negative [n] whose base-36 numeral has at
    most nine characters, [encode_base36_id n] is that numeral (digits
    [0-9A-Z], most significant first, no leading zero, ["0"] for zero)
    after one decimal digit equal to its length; [encode_base36_id 0] is
    ["10"]. *)
Theorem encode_base36_id_format :
  (forall n, in_contract n ->
     exists rep,
       base36encode n = Ok rep /\
       encode_base36_id n = Ok (len_digit (length rep) :: rep) /\
       (1 <= length rep <= 9)%nat /\
       py_int 10 [len_digit (length rep)] = Ok (Z.of_nat (length rep)) /\
       Forall upper36 rep /\
       b36_val rep = n /\
       base36decode rep = Ok n /\
       (n = 0 -> rep = lit "0") /\
       (0 < n -> forall c r, rep = c :: r -> c <> "0"%char)) /\
  encode_base36_id 0 = Ok (lit "10").
Proof.
  split; [| reflexivity].
  intros n Hn.
  destruct (base36encode_total n ltac:(destruct Hn; assumption)) as [rep [E Hb]].
  assert (Hlen := base36_of_length n rep Hn Hb).
  destruct Hb as [Ha Hv Hne Hz Hh Hu Hl].
  exists rep. repeat apply conj; try assumption; try lia.
  - unfold encode_base36_id. rewrite E. cbn [bind].
    rewrite py_str_nat_digit by lia. reflexivity.
  - apply py_int_len_digit. lia.
  - rewrite base36decode_upper36, Hv
      by first [assumption | apply short_numeral_fits; lia].
    reflexivity.
Qed.

Lemma encode_base36_id_format_witness :
  exists rep,
    base36encode 1295 = Ok rep /\
    encode_base36_id 1295 = Ok (len_digit (length rep) :: rep) /\
    (1 <= length rep <= 9)%nat /\
    py_int 10 [len_digit (length rep)] = Ok (Z.of_nat (length rep)) /\
    Forall upper36 rep /\
    b36_val rep = 1295 /\
    base36decode rep = Ok 1295 /\
    (1295 = 0 -> rep = lit "0") /\
    (0 < 1295 -> forall c r, rep = c :: r -> c <> "0"%char).
Proof.
  apply (proj1 encode_base36_id_format 1295).
  vm_compute. split; congruence.
Defined.

(** * What the decoder rejects *)



Lemma encode_base36_id_cases (n : Z) :
  (0 <= n /\ exists tok, encode_base36_id n = Ok tok) \/
  (n < 0 /\ encode_base36_id n = Raise ValueError).
Proof.
  destruct (Z_lt_le_dec n 0) as [Hneg | Hpos].
  - right. split; [exact Hneg |].
    unfold encode_base36_id, base36encode.
    assert (Hc : negb (0 <=? n) = true)
      by (apply negb_true_iff, Z.leb_gt; exact Hneg).
    rewrite Hc. reflexivity.
  - left. split; [exact Hpos |].
    destruct (base36encode_total n Hpos) as [body [Eb _]].
    unfold encode_base36_id. rewrite Eb. eexists. reflexivity.
Qed.





(** * Saving *)

Lemma opt_Z_eqb_spec (a b : option Z) : opt_Z_eqb a b = true <-> a = b.
Proof.
  destruct a as [x|], b as [y|]; cbn; split; intros H;
    try discriminate; try reflexivity.
  - apply Z.eqb_eq in H. subst. reflexivity.
  - injection H as ->. apply Z.eqb_refl.
Qed.

(** Writing a row leaves the rows of every other key as they were. *)
Lemma write_row_others (row : DbRow.t) (db : Store) :
  filter (fun r => negb (DbRow.id r =? DbRow.id row)) (write_row row db)
  = filter (fun r => negb (DbRow.id r =? DbRow.id row)) db.
Proof.
  induction db as [|r db IH].
  - cbn. rewrite Z.eqb_refl. reflexivity.
  - cbn [write_row]. destruct (DbRow.id r =? DbRow.id row) eqn:E.
    + cbn [filter]. rewrite E, Z.eqb_refl. reflexivity.
    + cbn [filter]. rewrite E. cbn [negb]. rewrite IH. reflexivity.
Qed.

Lemma write_row_get_other (row : DbRow.t) (db : Store) (k : Z) :
  k <> DbRow.id row -> objects_get (write_row row db) k = objects_get db k.
Proof.
  intros Hk. induction db as [|r db IH].
  - cbn. assert (E : (DbRow.id row =? k) = false) by (apply Z.eqb_neq; congruence).
    rewrite E. reflexivity.
  - cbn [write_row]. destruct (DbRow.id r =? DbRow.id row) eqn:E.
    + cbn [objects_get]. apply Z.eqb_eq in E.
      assert (E1 : (DbRow.id row =? k) = false) by (apply Z.eqb_neq; congruence).
      assert (E2 : (DbRow.id r =? k) = false) by (apply Z.eqb_neq; congruence).
      rewrite E1, E2. reflexivity.
    + cbn [objects_get]. rewrite IH. reflexivity.
Qed.

Lemma write_row_get (row : DbRow.t) (db : Store) :
  objects_get (write_row row db) (DbRow.id row) = Ok row.
Proof.
  induction db as [|r db IH].
  - cbn. rewrite Z.eqb_refl. reflexivity.
  - cbn [write_row]. destruct (DbRow.id r =? DbRow.id row) eqn:E.
    + cbn [objects_get]. rewrite Z.eqb_refl. reflexivity.
    + cbn [objects_get]. rewrite E. exact IH.
Qed.

(** C4: when a new record is saved, its path becomes absent and its depth
    is 0 if it has no parent; otherwise its path becomes
    [xstr(parent.path) + encode_base36_id(parent.id)].  The row written
    carries that path. *)
Theorem save_on_create (self : Node) (db : Store) :
  adding self = true ->
  (parent self = None ->
     save (self, db)
     = (Ok tt,
        (mkNode (id self) None None (_original_parent_id self) false,
         write_row (DbRow.mk (id self) None None) db)) /\
     depth (fst (snd (save (self, db)))) = Ok 0) /\
  (forall p tok,
     parent self = Some p ->
     encode_base36_id (DbRow.id p) = Ok tok ->
     save (self, db)
     = (Ok tt,
        (mkNode (id self) (Some (xstr (DbRow.path p) ++ tok)) (Some p)
                (_original_parent_id self) false,
         write_row (DbRow.mk (id self) (Some (DbRow.id p))
                           (Some (xstr (DbRow.path p) ++ tok))) db))).
Proof.
  intros Hadd. destruct self as [i pth par orig add]. cbn in Hadd. subst add.
  split.
  - cbn. intros ->. split; reflexivity.
  - cbn. intros p tok -> Et.
    unfold save, mbind, get_self, lift, set_path, super_save. cbn.
    destruct (DbRow.path p) as [[|c pp]|]; cbn; rewrite Et; reflexivity.
Qed.

Lemma save_on_create_witness :
  save (mkNode 3 None (Some (DbRow.mk 37 (Some 1) (Some (lit "11")))) None true, [])
  = (Ok tt,
     (mkNode 3 (Some (lit "11" ++ lit "211"))
             (Some (DbRow.mk 37 (Some 1) (Some (lit "11")))) None false,
      write_row (DbRow.mk 3 (Some 37) (Some (lit "11" ++ lit "211"))) [])).
Proof.
  apply (proj2 (save_on_create
                  (mkNode 3 None (Some (DbRow.mk 37 (Some 1) (Some (lit "11"))))
                          None true) [] eq_refl)
               (DbRow.mk 37 (Some 1) (Some (lit "11"))) (lit "211")).
  - reflexivity.
  - reflexivity.
Defined.

(** C9: saving an existing record whose parent is the one it was loaded
    with keeps the instance as it is, raises nothing, writes the record's
    own row with the path it already had, and leaves every other row of the
    table untouched. *)
Theorem save_same_parent (self : Node) (db : Store) :
  adding self = false ->
  _original_parent_id self = parent_id self ->
  save (self, db) = (Ok tt, (self, write_row (as_row self) db)) /\
  objects_get (write_row (as_row self) db) (id self) = Ok (as_row self) /\
  filter (fun r => negb (DbRow.id r =? id self)) (write_row (as_row self) db)
  = filter (fun r => negb (DbRow.id r =? id self)) db.
Proof.
  intros Hadd Hsame. split; [| split].
  - destruct self as [i pth par orig add].
    unfold parent_id in Hsame. cbn in Hadd, Hsame. subst add orig.
    unfold save, mbind, get_self, ret, super_save. cbn.
    assert (E : opt_Z_eqb (option_map DbRow.id par) (option_map DbRow.id par) = true)
      by (apply opt_Z_eqb_spec; reflexivity).
    unfold parent_id. cbn. rewrite E. reflexivity.
  - apply (write_row_get (as_row self) db).
  - apply (write_row_others (as_row self) db).
Qed.

Lemma save_same_parent_witness :
  let self := mkNode 37 (Some (lit "11")) (Some (DbRow.mk 1 None None)) (Some 1) false in
  let db := [DbRow.mk 1 None None; DbRow.mk 37 (Some 1) (Some (lit "11"));
             DbRow.mk 38 (Some 37) (Some (lit "11211"))] in
  save (self, db) = (Ok tt, (self, write_row (as_row self) db)) /\
  objects_get (write_row (as_row self) db) (id self) = Ok (as_row self) /\
  filter (fun r => negb (DbRow.id r =? id self)) (write_row (as_row self) db)
  = filter (fun r => negb (DbRow.id r =? id self)) db.
Proof.
  intros self db. apply (save_same_parent self db); reflexivity.
Defined.

(** C10: when an existing record is saved with its parent removed, [save]
    does not raise the validation error of the cycle check; and, the
    record's key being non-negative, it succeeds with the record's path set
    to absent, in memory and in its row. *)
Theorem save_to_root (self : Node) (db : Store) :
  adding self = false ->
  parent self = None ->
  _original_parent_id self <> None ->
  fst (save (self, db)) <> Raise ValidationError /\
  (0 <= id self ->
   fst (save (self, db)) = Ok tt /\
   path (fst (snd (save (self, db)))) = None /\
   objects_get (snd (snd (save (self, db)))) (id self)
   = Ok (DbRow.mk (id self) None None)).
Proof.
  intros Hadd Hpar Hchg.
  destruct self as [i pth par orig add]. cbn in Hadd, Hpar, Hchg. subst add par.
  destruct orig as [o|]; [| contradiction].
  unfold save, mbind, get_self, lift, ret, set_path, objects_update, super_save.
  cbn.
  destruct (encode_base36_id_cases i) as [[Hpos [tok Et]] | [Hneg Et]];
    rewrite Et; cbn.
  - split; [discriminate |]. intros _.
    split; [reflexivity | split; [reflexivity |]].
    apply (write_row_get (DbRow.mk i None None)).
  - split; [discriminate | lia].
Qed.

Lemma save_to_root_witness :
  let self := mkNode 37 (Some (lit "11")) None (Some 1) false in
  let db := [DbRow.mk 1 None None; DbRow.mk 37 (Some 1) (Some (lit "11"))] in
  fst (save (self, db)) = Ok tt /\
  path (fst (snd (save (self, db)))) = None /\
  objects_get (snd (snd (save (self, db)))) (id self)
  = Ok (DbRow.mk (id self) None None).
Proof.
  intros self db.
  apply (proj2 (save_to_root self db eq_refl eq_refl ltac:(discriminate))).
  cbn. lia.
Defined.

(** * The loops never run out of fuel *)

Lemma py_int_digits_total (base sign : Z) (s : str) :
  py_int_digits base sign s <> OutOfFuel.
Proof.
  unfold py_int_digits.
  destruct s as [|c r]; [discriminate |].
  destruct (ascii_eqb c underscore); [discriminate |].
  destruct (scan_digits base (c :: r) false 0 0) as [[[v nd] rest]|];
    [| discriminate].
  destruct nd; [discriminate |].
  destruct (lstrip rest); [| discriminate].
  destruct (S nd <=? int_max_str_digits)%nat; discriminate.
Qed.

Lemma py_int_total (base : Z) (s : str) : py_int base s <> OutOfFuel.
Proof.
  unfold py_int.
  destruct (lstrip s) as [|c r]; [discriminate |].
  destruct (ascii_eqb c "+"%char); [apply py_int_digits_total |].
  destruct (ascii_eqb c "-"%char); apply py_int_digits_total.
Qed.

Lemma encode_base36_id_total (n : Z) : encode_base36_id n <> OutOfFuel.
Proof.
  destruct (encode_base36_id_cases n) as [[_ [tok E]] | [_ E]];
    rewrite E; discriminate.
Qed.

Lemma decode_loop_total (fuel : nat) (p : str) :
  forall cursor acc,
    (1 <= fuel)%nat ->
    (length p + 1 <= cursor + fuel)%nat ->
    decode_loop fuel p cursor acc <> OutOfFuel.
Proof.
  induction fuel as [|fuel IH]; intros cursor acc H1 Hfuel; [lia |].
  cbn [decode_loop].
  destruct (cursor <? length p)%nat eqn:Hc; [| discriminate].
  apply Nat.ltb_lt in Hc.
  destruct (py_int 10 [nth (cursor - 1) p "000"%char]) as [k | e |] eqn:Ek;
    [| discriminate | exfalso; exact (py_int_total _ _ Ek)].
  cbn [bind].
  destruct (decode_base36_id (firstn (Z.to_nat k) (skipn cursor p)))
    as [v | e |] eqn:Ev;
    [| discriminate | exfalso; exact (py_int_total _ _ Ev)].
  cbn [bind]. apply IH; lia.
Qed.

Lemma decode_path_to_ids_total (path : option str) :
  decode_path_to_ids path <> OutOfFuel.
Proof.
  unfold decode_path_to_ids.
  destruct (negb (truthy_str path)); [discriminate |].
  apply decode_loop_total; lia.
Qed.

Lemma mbind_total {A B} (m : M A) (k : A -> M B) (w : Node * Store) :
  fst (m w) <> OutOfFuel ->
  (forall a w', fst (k a w') <> OutOfFuel) ->
  fst (mbind m k w) <> OutOfFuel.
Proof.
  intros Hm Hk. unfold mbind.
  destruct (m w) as [[a | e |] w'] eqn:E.
  - apply Hk.
  - discriminate.
  - exfalso. apply Hm. reflexivity.
Qed.

Lemma lift_total {A} (o : outcome A) (w : Node * Store) :
  o <> OutOfFuel -> fst (lift o w) <> OutOfFuel.
Proof. intros H. exact H. Qed.

(** [save] always comes back, with a result or with an exception. *)
Lemma save_total (self : Node) (db : Store) :
  fst (save (self, db)) <> OutOfFuel.
Proof.
  unfold save.
  apply mbind_total; [discriminate | intros self0 w0].
  apply mbind_total; [| intros; discriminate].
  destruct (adding self0).
  - destruct (parent self0) as [p|]; [| discriminate].
    destruct (truthy_str (DbRow.path p));
      (apply mbind_total;
       [apply lift_total, encode_base36_id_total | intros; discriminate]).
  - destruct (negb (opt_Z_eqb (_original_parent_id self0) (parent_id self0)));
      [| discriminate].
    apply mbind_total; [apply lift_total, encode_base36_id_total | intros tok w1].
    apply mbind_total.
    + destruct (parent self0) as [p|]; [| discriminate].
      destruct (truthy_id (parent_id self0)); [| discriminate].
      apply mbind_total;
        [apply lift_total, encode_base36_id_total | intros tokp w2].
      apply mbind_total; [discriminate | intros _ w3].
      apply mbind_total; [discriminate | intros self1 w4].
      apply mbind_total;
        [apply lift_total, decode_path_to_ids_total | intros ids w5].
      destruct (existsb (Z.eqb (id self1)) ids); discriminate.
    + intros _ w2.
      apply mbind_total; [discriminate | intros; discriminate].
Qed.

(** * The cycle check *)

Lemma decode_parent_chain (anc : list Z) (pid : Z) (ppath tok : str) :
  Forall in_contract anc ->
  in_contract pid ->
  encode_ids_to_path anc = Ok ppath ->
  encode_base36_id pid = Ok tok ->
  decode_path_to_ids (Some (ppath ++ tok)) = Ok (anc ++ [pid]).
Proof.
  intros Hanc Hpid Ea Et.
  assert (Hall : Forall in_contract (anc ++ [pid]))
    by (apply Forall_app; split; [exact Hanc | constructor; [exact Hpid | constructor]]).
  destruct (decode_encode _ Hall) as [q [Eq D]].
  rewrite encode_ids_to_path_app, Ea in Eq. cbn [bind] in Eq.
  rewrite encode_ids_to_path_cons, Et in Eq. cbn in Eq.
  rewrite app_nil_r in Eq. injection Eq as <-. exact D.
Qed.

(** C3 fails on the code: record 0 is a child of record 5, and saving
    record 5 with record 0 as its parent raises nothing and writes the row
    of record 5 with parent 0.  The check announced by the comment
    "Do not allow your parent to be your child" sits under
    [if self.parent_id:], which takes the key 0 for no parent, so it is
    never reached. *)
Theorem cycle_through_key_zero_is_saved :
  let child := DbRow.mk 0 (Some 5) (Some (lit "15")) in
  let db := [DbRow.mk 5 None None; child] in
  let self := mkNode 5 None (Some child) None false in
  is_child_of (mkNode 0 (Some (lit "15")) (Some (DbRow.mk 5 None None)) (Some 5) false) 5
  = Ok true /\
  fst (save (self, db)) = Ok tt /\
  snd (snd (save (self, db))) = [DbRow.mk 5 (Some 0) None; child].
Proof. cbv zeta. split; [| split]; vm_compute; reflexivity. Qed.

(** A cycle also gets through the check when it is reached, once the
    descendant's stored path no longer names the record.  Record 38 is
    the child of record 37 (path [11211], under root 1).  Saving record 37
    without parent sets the path of 38 to NULL; record 38 is still the
    child of 37, yet saving 37 with parent 38 then raises nothing: the
    check reads the path of 38, not its parent. *)
Lemma cycle_after_unparenting_is_saved :
  let db0 := [DbRow.mk 1 None None; DbRow.mk 37 (Some 1) (Some (lit "11"));
              DbRow.mk 38 (Some 37) (Some (lit "11211"))] in
  let db1 := [DbRow.mk 1 None None; DbRow.mk 37 None None;
              DbRow.mk 38 (Some 37) None] in
  let child := DbRow.mk 38 (Some 37) None in
  save (mkNode 37 (Some (lit "11")) None (Some 1) false, db0)
  = (Ok tt, (mkNode 37 None None (Some 1) false, db1)) /\
  objects_get db1 38 = Ok child /\
  fst (save (mkNode 37 None (Some child) None false, db1)) = Ok tt /\
  snd (snd (save (mkNode 37 None (Some child) None false, db1)))
  = [DbRow.mk 1 None None; DbRow.mk 37 (Some 38) (Some (lit "212")); child].
Proof. cbv zeta. repeat split; vm_compute; reflexivity. Qed.

(** Where the check does reject: the new parent's key is not 0, the new
    parent's stored path encodes a chain [anc] of keys whose numerals have
    at most nine characters, as the parent's key has, and the record is the
    new parent or occurs in [anc].  Then saving the existing record raises
    the validation error and leaves the table as it was. *)
Lemma save_rejects_cycle (self : Node) (db : Store) (p : DbRow.t) (anc : list Z) :
  adding self = false ->
  parent self = Some p ->
  _original_parent_id self <> Some (DbRow.id p) ->
  DbRow.id p <> 0 ->
  in_contract (DbRow.id p) ->
  Forall in_contract anc ->
  encode_ids_to_path anc = Ok (xstr (DbRow.path p)) ->
  DbRow.id p = id self \/ In (id self) anc ->
  fst (save (self, db)) = Raise ValidationError /\
  snd (snd (save (self, db))) = db.
Proof.
  intros Hadd Hpar Hchg Hnz Hpid Hanc Ea Hcyc.
  destruct self as [i pth par orig add]. cbn in Hadd, Hpar, Hchg, Hcyc.
  subst add par.
  assert (Hi : in_contract i).
  { destruct Hcyc as [<- | Hin]; [exact Hpid |].
    rewrite Forall_forall in Hanc. apply Hanc. exact Hin. }
  destruct (encode_base36_id_spec i Hi) as [bi [Ei _]].
  destruct (encode_base36_id_spec _ Hpid) as [bp [Ep _]].
  assert (D := decode_parent_chain anc _ _ _ Hanc Hpid Ea Ep).
  assert (Hne : opt_Z_eqb orig (Some (DbRow.id p)) = false).
  { destruct (opt_Z_eqb orig (Some (DbRow.id p))) eqn:E; [| reflexivity].
    apply opt_Z_eqb_spec in E. contradiction. }
  assert (Hz : (DbRow.id p =? 0) = false) by (apply Z.eqb_neq; exact Hnz).
  assert (Hex : existsb (Z.eqb i) (anc ++ [DbRow.id p]) = true).
  { apply existsb_exists. exists i. split; [| apply Z.eqb_refl].
    apply in_or_app. destruct Hcyc as [-> | Hin]; [right; left; reflexivity | left; exact Hin]. }
  run_save. rewrite Hne. run_save. rewrite Ei. run_save. rewrite Hz. run_save.
  rewrite Ep. run_save. rewrite D. run_save. rewrite Hex. run_save.
  split; reflexivity.
Qed.

Lemma save_rejects_cycle_witness :
  let child := DbRow.mk 3 (Some 1) (Some (lit "11")) in
  let db := [DbRow.mk 1 None None; DbRow.mk 2 None None; child] in
  let self := mkNode 1 None (Some child) None false in
  fst (save (self, db)) = Raise ValidationError /\
  snd (snd (save (self, db))) = db.
Proof.
  intros child db self.
  apply (save_rejects_cycle self db child [1]).
  - reflexivity.
  - reflexivity.
  - discriminate.
  - discriminate.
  - vm_compute. split; congruence.
  - repeat constructor; vm_compute; congruence.
  - reflexivity.
  - right. left. reflexivity.
Defined.

(** * Depth and ancestors *)

Lemma decode_loop_length (fuel : nat) (p : str) :
  forall cursor acc ids,
    decode_loop fuel p cursor acc = Ok ids ->
    (length ids + cursor <= length acc + Nat.max cursor (length p))%nat.
Proof.
  induction fuel as [|fuel IH]; intros cursor acc ids E; [discriminate E |].
  cbn [decode_loop] in E.
  destruct (cursor <? length p)%nat eqn:Hc.
  - apply Nat.ltb_lt in Hc.
    destruct (py_int 10 [nth (cursor - 1) p "000"%char]) as [k | e |];
      try discriminate E.
    cbn [bind] in E.
    destruct (decode_base36_id (firstn (Z.to_nat k) (skipn cursor p)))
      as [v | e |]; try discriminate E.
    cbn [bind] in E. apply IH in E. rewrite length_app in E. cbn [length] in E.
    lia.
  - injection E as <-. lia.
Qed.

(** A path that fits the column ([max_length=255]) has depth below 255. *)
Lemma depth_bound (self : Node) (sd : Z) :
  (length (xstr (path self)) <= 255)%nat ->
  depth self = Ok sd ->
  0 <= sd < 255.
Proof.
  intros Hlen E. unfold depth in E.
  destruct (truthy_str (path self)) eqn:Ht; cbn [negb] in E.
  - unfold decode_path_to_ids in E. rewrite Ht in E. cbn [negb] in E.
    destruct (decode_loop (S (length (xstr (path self)))) (xstr (path self)) 1 [])
      as [ids | e |] eqn:D; try discriminate E.
    cbn [bind] in E. injection E as <-.
    apply decode_loop_length in D. cbn [length] in D.
    destruct (path self) as [[|c r]|]; try discriminate Ht.
    cbn [xstr length] in *. lia.
  - injection E as <-. lia.
Qed.

(** The cases of [get_ancestor]: it raises [ValueError] for a negative
    depth and for a depth above the record's own; at depth 0 it is
    [get_root]; strictly between 0 and the record's depth it fetches the
    record whose key is at that position of the decoded path; and at the
    record's own depth it returns the record itself when the path is at
    most 255 characters long and a record of depth 0 has no path. *)
Lemma get_ancestor_spec (self : Node) (db : Store) :
  (forall d, d < 0 -> get_ancestor self d db = Raise ValueError) /\
  (forall d sd, depth self = Ok sd -> sd < d ->
                get_ancestor self d db = Raise ValueError) /\
  get_ancestor self 0 db = get_root self db /\
  (forall sd, depth self = Ok sd ->
              (sd = 0 -> truthy_str (path self) = false) ->
              (length (xstr (path self)) <= 255)%nat ->
              get_ancestor self sd db = Ok Self) /\
  (forall d sd ids, depth self = Ok sd -> 0 < d < sd ->
                    decode_path_to_ids (path self) = Ok ids ->
                    exists k, nth_error ids (Z.to_nat d) = Some k /\
                              get_ancestor self d db
                              = (r <- objects_get db k ;; Ok (Fetched r))).
Proof.
  assert (Hnn : forall sd, depth self = Ok sd -> 0 <= sd).
  { intros sd E. unfold depth in E.
    destruct (negb (truthy_str (path self))).
    - injection E as <-. lia.
    - destruct (decode_path_to_ids (path self)); try discriminate E.
      cbn [bind] in E. injection E as <-. lia. }
  split; [| split; [| split; [| split]]].
  - intros d Hd. unfold get_ancestor.
    assert (E : (d <? 0) = true) by (apply Z.ltb_lt; exact Hd).
    rewrite E. reflexivity.
  - intros d sd Hsd Hlt. assert (H0 := Hnn sd Hsd). unfold get_ancestor.
    assert (E1 : (d <? 0) = false) by (apply Z.ltb_ge; lia).
    assert (E2 : int_is d 0 = false).
    { unfold int_is. assert (E : (d =? 0) = false) by (apply Z.eqb_neq; lia).
      rewrite E. reflexivity. }
    assert (E3 : int_is sd d = false).
    { unfold int_is. assert (E : (sd =? d) = false) by (apply Z.eqb_neq; lia).
      rewrite E. reflexivity. }
    assert (E4 : (sd <? d) = true) by (apply Z.ltb_lt; exact Hlt).
    rewrite E1, E2, Hsd. cbn [bind]. rewrite E3, E4. reflexivity.
  - reflexivity.
  - intros sd Hsd Hroot Hlen. unfold get_ancestor.
    destruct (depth_bound self sd Hlen Hsd) as [H0 H255].
    assert (E1 : (sd <? 0) = false) by (apply Z.ltb_ge; lia).
    rewrite E1.
    destruct (Z.eq_dec sd 0) as [-> | Hnz].
    + change (int_is 0 0) with true. cbv iota.
      unfold get_root. rewrite (Hroot eq_refl). reflexivity.
    + assert (E2 : int_is sd 0 = false).
      { unfold int_is. assert (E : (sd =? 0) = false) by (apply Z.eqb_neq; lia).
        rewrite E. reflexivity. }
      assert (E3 : int_is sd sd = true).
      { unfold int_is. rewrite Z.eqb_refl.
        assert (Ea : (-5 <=? sd) = true) by (apply Z.leb_le; lia).
        assert (Eb : (sd <=? 256) = true) by (apply Z.leb_le; lia).
        rewrite Ea, Eb. reflexivity. }
      rewrite E2, Hsd. cbn [bind]. rewrite E3. reflexivity.
  - intros d sd ids Hsd Hd Hids.
    assert (Hlen : sd = Z.of_nat (length ids)).
    { unfold depth in Hsd. destruct (negb (truthy_str (path self))).
      - injection Hsd as <-. lia.
      - rewrite Hids in Hsd. cbn [bind] in Hsd. injection Hsd as <-. reflexivity. }
    destruct (nth_error ids (Z.to_nat d)) as [k|] eqn:Hk.
    2:{ apply nth_error_None in Hk. lia. }
    exists k. split; [reflexivity |].
    unfold get_ancestor.
    assert (E1 : (d <? 0) = false) by (apply Z.ltb_ge; lia).
    assert (E2 : int_is d 0 = false).
    { unfold int_is. assert (E : (d =? 0) = false) by (apply Z.eqb_neq; lia).
      rewrite E. reflexivity. }
    assert (E3 : int_is sd d = false).
    { unfold int_is. assert (E : (sd =? d) = false) by (apply Z.eqb_neq; lia).
      rewrite E. reflexivity. }
    assert (E4 : (sd <? d) = false) by (apply Z.ltb_ge; lia).
    rewrite E1, E2, Hsd. cbn [bind]. rewrite E3, E4, Hids. cbn [bind].
    unfold index. rewrite Hk. reflexivity.
Qed.

Lemma get_ancestor_spec_witness :
  let self := mkNode 38 (Some (lit "11211")) (Some (DbRow.mk 37 (Some 1) (Some (lit "11"))))
                     (Some 37) false in
  let db := [DbRow.mk 1 None None; DbRow.mk 37 (Some 1) (Some (lit "11"));
             DbRow.mk 38 (Some 37) (Some (lit "11211"))] in
  get_ancestor self (-1) db = Raise ValueError /\
  get_ancestor self 3 db = Raise ValueError /\
  get_ancestor self 2 db = Ok Self /\
  exists k, nth_error [1; 37] (Z.to_nat 1) = Some k /\
            get_ancestor self 1 db = (r <- objects_get db k ;; Ok (Fetched r)).
Proof.
  intros self db.
  destruct (get_ancestor_spec self db) as (Hneg & Habove & _ & Hown & Hmid).
  split; [| split; [| split]].
  - apply Hneg. lia.
  - apply (Habove 3 2); [reflexivity | lia].
  - apply (Hown 2); [reflexivity | discriminate | cbn; lia].
  - apply (Hmid 1 2 [1; 37]); [reflexivity | lia | reflexivity].
Defined.

(** [ids[len(ids)]] is out of range. *)
Lemma index_at_length (ids : list Z) : index ids (length ids) = Raise IndexError.
Proof.
  unfold index.
  assert (E : nth_error ids (length ids) = None) by (apply nth_error_None; lia).
  rewrite E. reflexivity.
Qed.

(** C8 fails on the code: for a record of depth above 256, [get_ancestor] at
    the record's own depth raises [IndexError] and does not return the
    record.  The test [self_depth is depth] compares identity, which two
    equal integers have up to 256 only; the test [self_depth < depth] that
    follows is false, and [ids[depth]] is out of range. *)
Theorem get_ancestor_own_depth_above_256 (self : Node) (db : Store) (sd : Z) :
  depth self = Ok sd ->
  256 < sd ->
  get_ancestor self sd db = Raise IndexError.
Proof.
  intros Hsd Hbig. unfold get_ancestor.
  assert (E1 : (sd <? 0) = false) by (apply Z.ltb_ge; lia).
  assert (E2 : int_is sd 0 = false).
  { unfold int_is. assert (E : (sd =? 0) = false) by (apply Z.eqb_neq; lia).
    rewrite E. reflexivity. }
  assert (E3 : int_is sd sd = false).
  { unfold int_is. assert (E : (sd <=? 256) = false) by (apply Z.leb_gt; lia).
    rewrite E. apply andb_false_r. }
  assert (E4 : (sd <? sd) = false) by (apply Z.ltb_irrefl).
  rewrite E1, E2, Hsd. cbn [bind]. rewrite E3, E4.
  unfold depth in Hsd. destruct (negb (truthy_str (path self))).
  - injection Hsd as <-. lia.
  - destruct (decode_path_to_ids (path self)) as [ids | e |];
      try discriminate Hsd.
    cbn [bind] in Hsd. injection Hsd as <-. cbn [bind].
    rewrite Nat2Z.id, index_at_length. reflexivity.
Qed.

Lemma get_ancestor_own_depth_above_256_witness :
  let self := mkNode 258 (stored_path (map Z.of_nat (seq 1 257))) None None false in
  depth self = Ok 257 /\
  get_ancestor self 257 [] = Raise IndexError.
Proof.
  intros self. split.
  - vm_compute. reflexivity.
  - apply (get_ancestor_own_depth_above_256 self [] 257).
    + vm_compute. reflexivity.
    + lia.
Defined.

(** One level less deep the record is returned. *)
Lemma get_ancestor_own_depth_256 :
  let self := mkNode 257 (stored_path (map Z.of_nat (seq 1 256))) None None false in
  depth self = Ok 256 /\
  get_ancestor self 256 [] = Ok Self.
Proof. cbv zeta. split; vm_compute; reflexivity. Qed.

(** * Moving a subtree *)

(** C2 fails on the code: record 37 (path [11], under record 1) has the
    child 38 (path [11211]); after record 37 is saved with parent 2, the
    row of 38 holds [12212], which decodes to [[2; 38]], not to
    [[2; 37]]: the SQL [replace] also rewrote the [11] inside the token of
    37. *)
Theorem reparent_rewrites_inside_token :
  let db := [DbRow.mk 1 None None; DbRow.mk 2 None None;
             DbRow.mk 37 (Some 1) (Some (lit "11"));
             DbRow.mk 38 (Some 37) (Some (lit "11211"))] in
  let self := mkNode 37 (Some (lit "11")) (Some (DbRow.mk 2 None None)) (Some 1) false in
  fst (save (self, db)) = Ok tt /\
  objects_get (snd (snd (save (self, db)))) 38
  = Ok (DbRow.mk 38 (Some 37) (Some (lit "12212"))) /\
  decode_path_to_ids (Some (lit "12212")) = Ok [2; 38] /\
  encode_ids_to_path [2; 37] = Ok (lit "12211").
Proof. cbv zeta. repeat split; vm_compute; reflexivity. Qed.

(** The same statement leaves the descendants of a moved root where they
    were: with an empty pattern [replace] changes nothing. *)
Lemma reparent_root_keeps_descendant_paths :
  let db := [DbRow.mk 1 None None; DbRow.mk 2 None None;
             DbRow.mk 3 (Some 1) (Some (lit "11"))] in
  let self := mkNode 1 None (Some (DbRow.mk 2 None None)) None false in
  fst (save (self, db)) = Ok tt /\
  objects_get (snd (snd (save (self, db)))) 1
  = Ok (DbRow.mk 1 (Some 2) (Some (lit "12"))) /\
  objects_get (snd (snd (save (self, db)))) 3
  = Ok (DbRow.mk 3 (Some 1) (Some (lit "11"))) /\
  encode_ids_to_path [2; 1] = Ok (lit "1211").
Proof. cbv zeta. repeat split; vm_compute; reflexivity. Qed.

(** * Siblings *)

(** C7 fails on the code: for the only root of a table [get_siblings]
    returns an empty query set, not [None]. *)
Theorem get_siblings_lone_root :
  get_siblings (mkNode 1 None None None false) [DbRow.mk 1 None None] = Some [].
Proof. reflexivity. Qed.

(** For a record without parent the result is never [None]; with a parent
    it is [None] exactly when no other row has that parent. *)
Lemma get_siblings_cases (self : Node) (db : Store) :
  (truthy_id (parent_id self) = false ->
   get_siblings self db = Some (same_parent_others None self db)) /\
  (truthy_id (parent_id self) = true ->
   (same_parent_others (parent_id self) self db = [] ->
    get_siblings self db = None) /\
   (same_parent_others (parent_id self) self db <> [] ->
    get_siblings self db = Some (same_parent_others (parent_id self) self db))).
Proof.
  unfold get_siblings. split; intros Ht; rewrite Ht; cbn [negb].
  - reflexivity.
  - split; intros H.
    + rewrite H. reflexivity.
    + destruct (same_parent_others (parent_id self) self db); [contradiction | reflexivity].
Qed.

(** * More on the numerals of [paths/utils.py] *)

(** The length of the numeral of [n] against a bound on [n]. *)
Lemma base36_of_length_le (k : nat) (n : Z) (s : str) :
  (1 <= k)%nat -> n < 36 ^ Z.of_nat k -> base36_of n s -> (length s <= k)%nat.
Proof.
  intros Hk Hlt H.
  destruct (b36_lower _ _ H) as [Hl | ->]; [| cbn; lia].
  destruct (le_lt_dec (length s) k) as [Hle | Hgt]; [exact Hle | exfalso].
  assert (36 ^ Z.of_nat k <= 36 ^ (Z.of_nat (length s) - 1))
    by (apply Z.pow_le_mono_r; lia).
  lia.
Qed.

Lemma base36_of_length_gt (k : nat) (n : Z) (s : str) :
  36 ^ Z.of_nat k <= n -> base36_of n s -> (k < length s)%nat.
Proof.
  intros Hge H. assert (Hu := b36_upper _ _ H).
  destruct (le_lt_dec (length s) k) as [Hle | Hgt]; [exfalso | exact Hgt].
  assert (36 ^ Z.of_nat (length s) <= 36 ^ Z.of_nat k)
    by (apply Z.pow_le_mono_r; lia).
  lia.
Qed.

(** X1: [base36encode] raises [ValueError] on every negative integer and
    returns a numeral on every other integer.  [base36decode] reads the
    numeral back as that integer when the integer is below [36 ^ 4300];
    from [36 ^ 4300] on the numeral has more than 4300 digits and
    [base36decode] raises [ValueError] on it. *)
Theorem base36_roundtrip (n : Z) :
  (n < 0 -> base36encode n = Raise ValueError) /\
  (0 <= n < 36 ^ Z.of_nat int_max_str_digits ->
   exists s, base36encode n = Ok s /\ s <> [] /\ base36decode s = Ok n) /\
  (36 ^ Z.of_nat int_max_str_digits <= n ->
   exists s, base36encode n = Ok s /\ s <> [] /\
             base36decode s = Raise ValueError).
Proof.
  split; [| split].
  - intros Hneg. unfold base36encode.
    assert (Hc : negb (0 <=? n) = true)
      by (apply negb_true_iff, Z.leb_gt; exact Hneg).
    rewrite Hc. reflexivity.
  - intros [Hpos Hlt].
    destruct (base36encode_total n Hpos) as [s [E Hs]].
    exists s. split; [exact E | split; [exact (b36_nonempty _ _ Hs) |]].
    rewrite base36decode_upper36.
    + rewrite (b36_value _ _ Hs). reflexivity.
    + exact (b36_nonempty _ _ Hs).
    + exact (b36_alphabet _ _ Hs).
    + apply (base36_of_length_le _ n); [unfold int_max_str_digits; lia | |];
        assumption.
  - intros Hge.
    assert (Hpos : 0 <= n).
    { assert (0 < 36 ^ Z.of_nat int_max_str_digits)
        by (apply Z.pow_pos_nonneg; lia).
      lia. }
    destruct (base36encode_total n Hpos) as [s [E Hs]].
    exists s. split; [exact E | split; [exact (b36_nonempty _ _ Hs) |]].
    apply base36decode_too_long; [exact (b36_alphabet _ _ Hs) |].
    apply (base36_of_length_gt _ n); assumption.
Qed.

Lemma base36_roundtrip_witness :
  base36encode (-1) = Raise ValueError /\
  (exists s, base36encode (36 ^ 12 + 35) = Ok s /\ s <> [] /\
             base36decode s = Ok (36 ^ 12 + 35)) /\
  (exists s, base36encode (36 ^ Z.of_nat int_max_str_digits) = Ok s /\
             s <> [] /\ base36decode s = Raise ValueError).
Proof.
  split; [| split].
  - apply (proj1 (base36_roundtrip (-1))). lia.
  - apply (proj1 (proj2 (base36_roundtrip (36 ^ 12 + 35)))).
    split; [lia | vm_compute; reflexivity].
  - apply (proj2 (proj2 (base36_roundtrip (36 ^ Z.of_nat int_max_str_digits)))).
    apply Z.le_refl.
Defined.

(** X2: A numeral over [0-9A-Z] of at most 4300 digits, without a leading
    zero (or the numeral ["0"]), is what [base36encode] writes for the
    integer [base36decode] reads from it. *)
Theorem base36encode_of_decode (s : str) :
  s <> [] ->
  Forall upper36 s ->
  (length s <= int_max_str_digits)%nat ->
  (forall c r, s = c :: r -> c = "0"%char -> r = []) ->
  exists v, base36decode s = Ok v /\ 0 <= v /\ base36encode v = Ok s.
Proof.
  intros Hne Hup Hlen Hzero.
  assert (Hb := b36_val_bounds s Hup).
  exists (b36_val s). split; [apply base36decode_upper36; assumption |].
  split; [lia |].
  destruct (base36encode_total (b36_val s) ltac:(lia)) as [rep [E Hrep]].
  rewrite E. f_equal.
  destruct s as [|c r]; [contradiction |].
  destruct (ascii_dec c "0"%char) as [-> | Hnz].
  - rewrite (Hzero _ _ eq_refl eq_refl) in *.
    apply (b36_zero _ _ Hrep). reflexivity.
  - assert (Hp := b36_val_positive c r Hup Hnz).
    assert (0 < 36 ^ Z.of_nat (length r)) by (apply Z.pow_pos_nonneg; lia).
    apply numeral_unique.
    + exact (b36_alphabet _ _ Hrep).
    + exact Hup.
    + apply (b36_head _ _ Hrep). lia.
    + intros c0 r0 E0. injection E0 as <- _. exact Hnz.
    + exact (b36_value _ _ Hrep).
Qed.

Lemma base36encode_of_decode_witness :
  exists v, base36decode (lit "Z00000000000000") = Ok v /\ 0 <= v /\
            base36encode v = Ok (lit "Z00000000000000").
Proof.
  apply (base36encode_of_decode (lit "Z00000000000000")).
  - discriminate.
  - repeat (constructor; [solve_upper36 |]). constructor.
  - apply Nat.leb_le. reflexivity.
  - intros c r E Hc. injection E as <- _. discriminate Hc.
Defined.

(** * More on [encode_ids_to_path] *)

(** X3: [encode_ids_to_path] returns a path when every identifier is
    non-negative, and raises [ValueError] as soon as one is negative. *)
Theorem encode_ids_to_path_errors (ids : list Z) :
  (Forall (fun n => 0 <= n) ids -> exists p, encode_ids_to_path ids = Ok p) /\
  (Exists (fun n => n < 0) ids -> encode_ids_to_path ids = Raise ValueError).
Proof.
  induction ids as [|n ids [IHok IHerr]].
  - split; [intros _; exists []; reflexivity | intros H; inversion H].
  - rewrite encode_ids_to_path_cons.
    destruct (encode_base36_id_cases n) as [[Hpos [tok E]] | [Hneg E]];
      rewrite E; cbn [bind].
    + split.
      * intros H. inversion H as [|? ? _ Hrest]; subst.
        destruct (IHok Hrest) as [p Ep]. rewrite Ep. eexists. reflexivity.
      * intros H. inversion H as [? ? Hn | ? ? Hrest]; subst; [lia |].
        rewrite (IHerr Hrest). reflexivity.
    + split.
      * intros H. inversion H; subst. lia.
      * intros _. reflexivity.
Qed.

Lemma encode_ids_to_path_errors_witness :
  (exists p, encode_ids_to_path [0; 36 ^ 20; 7] = Ok p) /\
  encode_ids_to_path [3; -4; 5] = Raise ValueError.
Proof.
  split.
  - apply (proj1 (encode_ids_to_path_errors [0; 36 ^ 20; 7])).
    repeat constructor; lia.
  - apply (proj2 (encode_ids_to_path_errors [3; -4; 5])).
    apply Exists_cons_tl, Exists_cons_hd. lia.
Defined.

Lemma tokens_length_upper (bodies : list str) :
  Forall good_body bodies ->
  (length (concat (map token bodies)) <= 10 * length bodies)%nat.
Proof.
  induction 1 as [|body bodies [Hlen _] _ IH]; [cbn; lia |].
  cbn [map concat length]. rewrite length_app. unfold token at 1.
  cbn [length]. lia.
Qed.

(** X4: The path of [k] identifiers below [36 ^ 9] has between [2 k] and
    [10 k] characters, so a chain of up to 25 ancestors fits the column of
    255 characters. *)
Theorem encoded_path_length (ids : list Z) (p : str) :
  Forall in_contract ids ->
  encode_ids_to_path ids = Ok p ->
  (2 * length ids <= length p <= 10 * length ids)%nat /\
  ((length ids <= 25)%nat -> (length p <= 255)%nat).
Proof.
  intros Hids E.
  destruct (encode_ids_to_path_spec ids Hids) as [bodies [E' [Hg Hv]]].
  rewrite E in E'. injection E' as ->.
  assert (Hl : length ids = length bodies)
    by (rewrite <- Hv; apply length_map).
  assert (H1 := tokens_length bodies Hg).
  assert (H2 := tokens_length_upper bodies Hg).
  split; [| intros H25]; lia.
Qed.

Lemma encoded_path_length_witness :
  (2 * length [1; 37; 36 ^ 9 - 1] <= length (lit "112119ZZZZZZZZZ")
   <= 10 * length [1; 37; 36 ^ 9 - 1])%nat /\
  ((length [1; 37; 36 ^ 9 - 1] <= 25)%nat ->
   (length (lit "112119ZZZZZZZZZ") <= 255)%nat).
Proof.
  apply (encoded_path_length [1; 37; 36 ^ 9 - 1] (lit "112119ZZZZZZZZZ")).
  - repeat constructor; vm_compute; congruence.
  - vm_compute. reflexivity.
Defined.

(** * Path prefixes and ancestor chains *)

Lemma like_prefix_app (p r : str) : like_prefix (p ++ r) p = true.
Proof.
  induction p as [|c p IH]; [destruct r; reflexivity |].
  cbn [app like_prefix]. rewrite IH. unfold ascii_eqb.
  rewrite Ascii.eqb_refl. reflexivity.
Qed.


(** No two characters of the alphabet [0-9A-Z] differ by case only. *)
Lemma ascii_lower_upper36 (c d : ascii) :
  upper36 c -> upper36 d ->
  ascii_eqb (ascii_lower c) (ascii_lower d) = ascii_eqb c d.
Proof.
  unfold upper36, digits. cbn. intros Hc Hd.
  repeat (destruct Hc as [Hc | Hc];
          [subst c;
           repeat (destruct Hd as [Hd | Hd]; [subst d; reflexivity |]);
           contradiction |]).
  contradiction.
Qed.

(** On paths over [0-9A-Z] the [LIKE] is the exact prefix test. *)
Lemma like_prefix_upper36 (s p : str) :
  Forall upper36 s -> Forall upper36 p -> like_prefix s p = startswith s p.
Proof.
  intros Hs Hp. revert s Hs.
  induction Hp as [|c p Hc Hp IH]; intros s Hs; [destruct s; reflexivity |].
  destruct Hs as [|d s Hd Hs]; [reflexivity |].
  cbn [like_prefix startswith].
  rewrite (ascii_lower_upper36 c d Hc Hd), (IH s Hs). reflexivity.
Qed.

Lemma startswith_spec (s p : str) :
  startswith s p = true <-> exists r, s = p ++ r.
Proof.
  revert s. induction p as [|c p IH]; intros s.
  - destruct s; cbn; (split; [intros _; eexists; reflexivity | reflexivity]).
  - destruct s as [|d s]; cbn [startswith].
    + split; [discriminate | intros [r E]; discriminate E].
    + rewrite andb_true_iff, IH. unfold ascii_eqb. rewrite Ascii.eqb_eq.
      split.
      * intros [-> [r ->]]. exists r. reflexivity.
      * intros [r E]. injection E as -> ->. split; [reflexivity | exists r; reflexivity].
Qed.

Lemma len_digit_inj (j k : nat) :
  (j <= 9)%nat -> (k <= 9)%nat -> len_digit j = len_digit k -> j = k.
Proof.
  intros Hj Hk E. unfold len_digit in E.
  apply (f_equal nat_of_ascii) in E.
  rewrite !nat_ascii_embedding in E by lia. lia.
Qed.

Lemma app_eq_length_inj {A} (a b x y : list A) :
  length a = length b -> a ++ x = b ++ y -> a = b /\ x = y.
Proof.
  revert b. induction a as [|h a IH]; intros [|h' b] Hl E;
    try discriminate Hl.
  - split; [reflexivity | exact E].
  - cbn in E. injection E as -> E. injection Hl as Hl.
    destruct (IH b Hl E) as [-> ->]. split; reflexivity.
Qed.

(** Tokens delimit themselves: a run of tokens that starts another run
    starts it token by token. *)
Lemma tokens_prefix (bs1 : list str) :
  forall bs2 r,
    Forall good_body bs1 -> Forall good_body bs2 ->
    concat (map token bs2) = concat (map token bs1) ++ r ->
    exists bs, bs2 = bs1 ++ bs.
Proof.
  induction bs1 as [|b1 bs1 IH]; intros bs2 r H1 H2 E.
  - exists bs2. reflexivity.
  - inversion H1 as [|? ? [Hl1 _] H1']; subst.
    destruct bs2 as [|b2 bs2]; [discriminate E |].
    inversion H2 as [|? ? [Hl2 _] H2']; subst.
    cbn [map concat] in E. unfold token at 1 3 in E. cbn [app] in E.
    injection E as Ed E.
    apply len_digit_inj in Ed; [| lia | lia].
    rewrite <- app_assoc in E.
    destruct (app_eq_length_inj _ _ _ _ Ed E) as [-> E'].
    destruct (IH bs2 r H1' H2' E') as [bs ->].
    exists bs. reflexivity.
Qed.

(** One encoded path starts with another exactly when its list of
    identifiers starts with the other list. *)
Lemma startswith_encoded (ids1 ids2 : list Z) (p1 p2 : str) :
  Forall in_contract ids1 ->
  Forall in_contract ids2 ->
  encode_ids_to_path ids1 = Ok p1 ->
  encode_ids_to_path ids2 = Ok p2 ->
  startswith p2 p1 = true <-> exists rest, ids2 = ids1 ++ rest.
Proof.
  intros H1 H2 E1 E2.
  destruct (encode_ids_to_path_spec ids1 H1) as [bs1 [E1' [Hg1 Hv1]]].
  destruct (encode_ids_to_path_spec ids2 H2) as [bs2 [E2' [Hg2 Hv2]]].
  rewrite E1 in E1'. injection E1' as ->.
  rewrite E2 in E2'. injection E2' as ->.
  rewrite startswith_spec. split.
  - intros [r E].
    destruct (tokens_prefix bs1 bs2 r Hg1 Hg2 E) as [bs ->].
    exists (map b36_val bs). rewrite <- Hv1, <- Hv2. apply map_app.
  - intros [rest ->].
    apply Forall_app in H2. destruct H2 as [_ Hrest].
    destruct (encode_ids_to_path_spec rest Hrest) as [bs [Er _]].
    rewrite encode_ids_to_path_app, E1, Er in E2. cbn [bind] in E2.
    injection E2 as <-. eexists. reflexivity.
Qed.

Lemma len_digit_upper36 (k : nat) : (k <= 9)%nat -> upper36 (len_digit k).
Proof.
  intros Hk. do 10 (destruct k as [|k]; [solve_upper36 |]). lia.
Qed.

Lemma tokens_upper36 (bodies : list str) :
  Forall good_body bodies -> Forall upper36 (concat (map token bodies)).
Proof.
  induction 1 as [|b bs [Hlen Hb] _ IH]; [constructor |].
  cbn [map concat]. apply Forall_app. split; [| exact IH].
  unfold token. constructor; [apply len_digit_upper36; lia | exact Hb].
Qed.

(** An encoded path has no letter in lower case, so the [LIKE] of the
    store is the exact prefix test on encoded paths. *)
Lemma like_prefix_encoded (ids1 ids2 : list Z) (p1 p2 : str) :
  Forall in_contract ids1 ->
  Forall in_contract ids2 ->
  encode_ids_to_path ids1 = Ok p1 ->
  encode_ids_to_path ids2 = Ok p2 ->
  like_prefix p2 p1 = startswith p2 p1.
Proof.
  intros H1 H2 E1 E2.
  destruct (encode_ids_to_path_spec ids1 H1) as [bs1 [E1' [Hg1 _]]].
  destruct (encode_ids_to_path_spec ids2 H2) as [bs2 [E2' [Hg2 _]]].
  rewrite E1 in E1'. injection E1' as ->.
  rewrite E2 in E2'. injection E2' as ->.
  apply like_prefix_upper36; apply tokens_upper36; assumption.
Qed.

(** * Reading the path of a record *)

Lemma decode_of_encoded (ids : list Z) (pth : option str) :
  Forall in_contract ids ->
  encode_ids_to_path ids = Ok (xstr pth) ->
  decode_path_to_ids pth = Ok ids.
Proof.
  intros Hids E.
  destruct (decode_encode ids Hids) as [p [E' D]].
  rewrite E in E'. injection E' as <-.
  destruct pth as [p|]; [exact D |].
  cbn [xstr] in *. exact D.
Qed.

Lemma encoded_nil (ids : list Z) :
  Forall in_contract ids -> encode_ids_to_path ids = Ok [] -> ids = [].
Proof.
  intros Hids E.
  destruct (encode_ids_to_path_spec ids Hids) as [bodies [E' [Hg Hv]]].
  rewrite E in E'. injection E' as E'.
  assert (Hl := tokens_length bodies Hg). rewrite <- E' in Hl.
  destruct bodies; [subst; reflexivity | cbn in Hl; lia].
Qed.

Lemma existsb_Zeqb_In (a : Z) (l : list Z) :
  existsb (Z.eqb a) l = true <-> In a l.
Proof.
  rewrite existsb_exists. split.
  - intros [x [Hin Hx]]. apply Z.eqb_eq in Hx. subst. exact Hin.
  - intros Hin. exists a. split; [exact Hin | apply Z.eqb_refl].
Qed.

Lemma falsy_path_encodes_nil (pth : option str) (anc : list Z) :
  Forall in_contract anc ->
  encode_ids_to_path anc = Ok (xstr pth) ->
  truthy_str pth = false -> anc = [].
Proof.
  intros Hanc E Ht. apply encoded_nil; [exact Hanc |].
  rewrite E. destruct pth as [[|c r]|]; try discriminate Ht; reflexivity.
Qed.

Lemma depth_chain (self : Node) (anc : list Z) :
  Forall in_contract anc ->
  encode_ids_to_path anc = Ok (xstr (path self)) ->
  depth self = Ok (Z.of_nat (length anc)).
Proof.
  intros Hanc E.
  assert (D := decode_of_encoded anc (path self) Hanc E).
  unfold depth. destruct (truthy_str (path self)) eqn:Ht; cbn [negb].
  - rewrite D. reflexivity.
  - rewrite (falsy_path_encodes_nil _ _ Hanc E Ht). reflexivity.
Qed.

Lemma ancestors_ids_chain (self : Node) (anc : list Z) :
  Forall in_contract anc ->
  encode_ids_to_path anc = Ok (xstr (path self)) ->
  get_ancestors_ids self false = Ok anc.
Proof.
  intros Hanc E.
  assert (D := decode_of_encoded anc (path self) Hanc E).
  unfold get_ancestors_ids.
  destruct (truthy_str (path self)) eqn:Ht; cbn [negb andb].
  - rewrite D. reflexivity.
  - rewrite (falsy_path_encodes_nil _ _ Hanc E Ht). reflexivity.
Qed.

(** X5: For a record whose path is the encoding of its chain of ancestors,
    [depth] is the length of that chain. *)
Theorem depth_on_encoded (self : Node) (anc : list Z) :
  Forall in_contract anc ->
  encode_ids_to_path anc = Ok (xstr (path self)) ->
  depth self = Ok (Z.of_nat (length anc)).
Proof.
  intros Hanc E.
  assert (D := decode_of_encoded anc (path self) Hanc E).
  unfold depth. destruct (truthy_str (path self)) eqn:Ht; cbn [negb].
  - rewrite D. reflexivity.
  - rewrite (falsy_path_encodes_nil _ _ Hanc E Ht). reflexivity.
Qed.

Lemma depth_on_encoded_witness :
  depth (mkNode 38 (Some (lit "11211")) None None false)
  = Ok (Z.of_nat (length [1; 37])).
Proof.
  apply (depth_on_encoded (mkNode 38 (Some (lit "11211")) None None false) [1; 37]).
  - repeat constructor; vm_compute; congruence.
  - reflexivity.
Defined.

(** X6: For such a record [get_ancestors_ids] returns the chain, root first,
    and with [include_self] the chain followed by the record's own key;
    for a record without path that is the empty list, or the key alone. *)
Theorem get_ancestors_ids_on_encoded (self : Node) (anc : list Z) :
  Forall in_contract anc ->
  encode_ids_to_path anc = Ok (xstr (path self)) ->
  get_ancestors_ids self false = Ok anc /\
  get_ancestors_ids self true = Ok (anc ++ [id self]).
Proof.
  intros Hanc E.
  assert (D := decode_of_encoded anc (path self) Hanc E).
  unfold get_ancestors_ids.
  destruct (truthy_str (path self)) eqn:Ht; cbn [negb andb].
  - rewrite D. split; reflexivity.
  - rewrite D. rewrite (falsy_path_encodes_nil _ _ Hanc E Ht). split; reflexivity.
Qed.

Lemma get_ancestors_ids_on_encoded_witness :
  let self := mkNode 38 (Some (lit "11211")) None None false in
  get_ancestors_ids self false = Ok [1; 37] /\
  get_ancestors_ids self true = Ok ([1; 37] ++ [id self]).
Proof.
  intros self. apply (get_ancestors_ids_on_encoded self [1; 37]).
  - repeat constructor; vm_compute; congruence.
  - reflexivity.
Defined.

(** X7: For such a record [is_child_of] answers [True] exactly for the keys on
    the chain and [False] for every other key; the record's own key is not
    asked for specially, so it counts only if it is on the chain. *)
Theorem is_child_of_on_encoded (self : Node) (anc : list Z) (a : Z) :
  Forall in_contract anc ->
  encode_ids_to_path anc = Ok (xstr (path self)) ->
  (In a anc -> is_child_of self a = Ok true) /\
  (~ In a anc -> is_child_of self a = Ok false).
Proof.
  intros Hanc E.
  assert (D := decode_of_encoded anc (path self) Hanc E).
  unfold is_child_of.
  destruct (truthy_str (path self)) eqn:Ht; cbn [negb].
  - rewrite D. cbn [bind]. split; intros H.
    + apply existsb_Zeqb_In in H. rewrite H. reflexivity.
    + rewrite <- existsb_Zeqb_In in H.
      destruct (existsb (Z.eqb a) anc); [exfalso; apply H |]; reflexivity.
  - rewrite (falsy_path_encodes_nil _ _ Hanc E Ht).
    split; [intros [] | reflexivity].
Qed.

Lemma is_child_of_on_encoded_witness :
  let self := mkNode 38 (Some (lit "11211")) None None false in
  is_child_of self 37 = Ok true /\ is_child_of self 38 = Ok false.
Proof.
  intros self. split.
  - apply (proj1 (is_child_of_on_encoded self [1; 37] 37
                    ltac:(repeat constructor; vm_compute; congruence) eq_refl)).
    right. left. reflexivity.
  - apply (proj2 (is_child_of_on_encoded self [1; 37] 38
                    ltac:(repeat constructor; vm_compute; congruence) eq_refl)).
    intros [H | [H | []]]; discriminate H.
Defined.

(** * The three ways through [save] *)

Lemma save_adding_run (self : Node) (db : Store) (p : DbRow.t) (tok : str) :
  adding self = true ->
  parent self = Some p ->
  encode_base36_id (DbRow.id p) = Ok tok ->
  save (self, db)
  = (Ok tt,
     (mkNode (id self) (Some (xstr (DbRow.path p) ++ tok)) (Some p)
             (_original_parent_id self) false,
      write_row (DbRow.mk (id self) (Some (DbRow.id p))
                          (Some (xstr (DbRow.path p) ++ tok))) db)).
Proof.
  intros Hadd Hpar Et.
  destruct self as [i pth par orig add]. cbn in Hadd, Hpar. subst add par.
  run_save.
  destruct (truthy_str (DbRow.path p)) eqn:Ht; rewrite Et; run_save.
  - reflexivity.
  - destruct (DbRow.path p) as [[|c r]|]; try discriminate Ht; reflexivity.
Qed.

Lemma save_change_run (self : Node) (db : Store) (p : DbRow.t)
      (tok_s tok_p : str) (ids : list Z) :
  adding self = false ->
  parent self = Some p ->
  _original_parent_id self <> Some (DbRow.id p) ->
  DbRow.id p <> 0 ->
  encode_base36_id (id self) = Ok tok_s ->
  encode_base36_id (DbRow.id p) = Ok tok_p ->
  decode_path_to_ids (Some (xstr (DbRow.path p) ++ tok_p)) = Ok ids ->
  existsb (Z.eqb (id self)) ids = false ->
  save (self, db)
  = (Ok tt,
     (mkNode (id self) (Some (xstr (DbRow.path p) ++ tok_p)) (Some p)
             (_original_parent_id self) false,
      write_row (DbRow.mk (id self) (Some (DbRow.id p))
                          (Some (xstr (DbRow.path p) ++ tok_p)))
                (update_replace (xstr (path self) ++ tok_s) (xstr (path self))
                                (Some (xstr (DbRow.path p) ++ tok_p)) db))).
Proof.
  intros Hadd Hpar Hchg Hnz Es Ep D Hex.
  destruct self as [i pth par orig add]. cbn in Hadd, Hpar, Hchg, Es, Hex.
  subst add par.
  assert (Hne : opt_Z_eqb orig (Some (DbRow.id p)) = false).
  { destruct (opt_Z_eqb orig (Some (DbRow.id p))) eqn:E; [| reflexivity].
    apply opt_Z_eqb_spec in E. contradiction. }
  assert (Hz : (DbRow.id p =? 0) = false) by (apply Z.eqb_neq; exact Hnz).
  run_save. rewrite Hne. run_save. rewrite Es. run_save. rewrite Hz. run_save.
  rewrite Ep. run_save. rewrite D. run_save. rewrite Hex. run_save.
  reflexivity.
Qed.

Lemma save_unparent_run (self : Node) (db : Store) (tok_s : str) :
  adding self = false ->
  parent self = None ->
  _original_parent_id self <> None ->
  encode_base36_id (id self) = Ok tok_s ->
  save (self, db)
  = (Ok tt,
     (mkNode (id self) None None (_original_parent_id self) false,
      write_row (DbRow.mk (id self) None None)
                (update_replace (xstr (path self) ++ tok_s) (xstr (path self))
                                None db))).
Proof.
  intros Hadd Hpar Hchg Es.
  destruct self as [i pth par orig add]. cbn in Hadd, Hpar, Hchg, Es.
  subst add par. destruct orig as [o|]; [| contradiction].
  run_save. rewrite Es. run_save. reflexivity.
Qed.


(** * A new record under a parent *)

(** X8: A record created under a parent whose path is the encoding of the
    chain [anc] gets the encoding of [anc] followed by the parent's key as
    its path; its depth is one more than the length of [anc] and
    [get_ancestors_ids] returns [anc] followed by the parent's key. *)
Theorem created_child_chain (self : Node) (db : Store) (p : DbRow.t)
        (anc : list Z) :
  adding self = true ->
  parent self = Some p ->
  in_contract (DbRow.id p) ->
  Forall in_contract anc ->
  encode_ids_to_path anc = Ok (xstr (DbRow.path p)) ->
  fst (save (self, db)) = Ok tt /\
  encode_ids_to_path (anc ++ [DbRow.id p])
  = Ok (xstr (path (fst (snd (save (self, db)))))) /\
  depth (fst (snd (save (self, db)))) = Ok (Z.of_nat (length anc) + 1) /\
  get_ancestors_ids (fst (snd (save (self, db)))) false
  = Ok (anc ++ [DbRow.id p]).
Proof.
  intros Hadd Hpar Hpid Hanc Ea.
  destruct (encode_base36_id_spec _ Hpid) as [bp [Ep _]].
  rewrite (save_adding_run self db p _ Hadd Hpar Ep). cbn [fst snd path].
  assert (Hall : Forall in_contract (anc ++ [DbRow.id p]))
    by (apply Forall_app; split; [exact Hanc | constructor; [exact Hpid | constructor]]).
  assert (Eall : encode_ids_to_path (anc ++ [DbRow.id p])
                 = Ok (xstr (DbRow.path p) ++ token bp)).
  { rewrite encode_ids_to_path_app, Ea. cbn [bind].
    rewrite encode_ids_to_path_cons, Ep. cbn. rewrite app_nil_r. reflexivity. }
  set (self' := mkNode (id self) (Some (xstr (DbRow.path p) ++ token bp))
                       (Some p) (_original_parent_id self) false).
  assert (Eself : encode_ids_to_path (anc ++ [DbRow.id p]) = Ok (xstr (path self')))
    by exact Eall.
  split; [reflexivity | split; [exact Eall | split]].
  - rewrite (depth_chain self' _ Hall Eself), length_app. cbn [length].
    f_equal. lia.
  - apply (ancestors_ids_chain self' _ Hall Eself).
Qed.

Lemma created_child_chain_witness :
  let p := DbRow.mk 37 (Some 1) (Some (lit "11")) in
  let self := mkNode 38 None (Some p) (Some 37) true in
  let db := [DbRow.mk 1 None None; p] in
  fst (save (self, db)) = Ok tt /\
  encode_ids_to_path ([1] ++ [DbRow.id p])
  = Ok (xstr (path (fst (snd (save (self, db)))))) /\
  depth (fst (snd (save (self, db)))) = Ok (Z.of_nat (length [1]) + 1) /\
  get_ancestors_ids (fst (snd (save (self, db)))) false = Ok ([1] ++ [DbRow.id p]).
Proof.
  intros p self db. apply (created_child_chain self db p [1]).
  - reflexivity.
  - reflexivity.
  - vm_compute. split; congruence.
  - repeat constructor; vm_compute; congruence.
  - reflexivity.
Defined.

(** * The table *)

Lemma objects_get_found (db : Store) (k : Z) (r : DbRow.t) :
  objects_get db k = Ok r -> In r db /\ DbRow.id r = k.
Proof.
  induction db as [|r0 db IH]; [discriminate |].
  cbn [objects_get]. destruct (DbRow.id r0 =? k) eqn:E.
  - intros H. injection H as <-. apply Z.eqb_eq in E.
    split; [left; reflexivity | exact E].
  - intros H. destruct (IH H) as [Hin Hid]. split; [right; exact Hin | exact Hid].
Qed.

Lemma objects_get_missing (db : Store) (k : Z) :
  (forall r, In r db -> DbRow.id r <> k) <-> objects_get db k = Raise DoesNotExist.
Proof.
  induction db as [|r0 db IH].
  - split; [reflexivity | intros _ r []].
  - cbn [objects_get]. destruct (DbRow.id r0 =? k) eqn:E.
    + apply Z.eqb_eq in E. split; [| discriminate].
      intros H. exfalso. apply (H r0); [left; reflexivity | exact E].
    + apply Z.eqb_neq in E. rewrite <- IH. split.
      * intros H r Hin. apply H. right. exact Hin.
      * intros H r [<- | Hin]; [exact E | apply H; exact Hin].
Qed.

Lemma write_row_in (row : DbRow.t) (db : Store) : In row (write_row row db).
Proof.
  induction db as [|r db IH]; [left; reflexivity |].
  cbn [write_row]. destruct (DbRow.id r =? DbRow.id row);
    [left; reflexivity | right; exact IH].
Qed.

Lemma write_row_keeps (row r : DbRow.t) (db : Store) :
  In r db -> DbRow.id r <> DbRow.id row -> In r (write_row row db).
Proof.
  intros Hin Hne. induction db as [|r0 db IH]; [contradiction |].
  cbn [write_row]. destruct (DbRow.id r0 =? DbRow.id row) eqn:E.
  - destruct Hin as [-> | Hin]; [| right; exact Hin].
    apply Z.eqb_eq in E. contradiction.
  - destruct Hin as [-> | Hin]; [left; reflexivity | right; apply IH; exact Hin].
Qed.

(** X9: A record created under a parent can be fetched by its key from then on,
    [has_children] holds for the parent, and [get_descendants] of the parent
    lists the new row. *)
Theorem created_child_visible (self pnode : Node) (db : Store) (p : DbRow.t) :
  adding self = true ->
  parent self = Some p ->
  0 <= DbRow.id p ->
  id pnode = DbRow.id p ->
  xstr (path pnode) = xstr (DbRow.path p) ->
  let self' := fst (snd (save (self, db))) in
  let db' := snd (snd (save (self, db))) in
  fst (save (self, db)) = Ok tt /\
  objects_get db' (id self) = Ok (as_row self') /\
  has_children pnode db' = true /\
  exists ds, get_descendants pnode db' = Ok ds /\ In (as_row self') ds.
Proof.
  intros Hadd Hpar Hpid Hpn Hpp self' db'. subst self' db'.
  destruct (encode_base36_id_cases (DbRow.id p)) as [[_ [tok Et]] | [Hneg _]];
    [| lia].
  rewrite (save_adding_run self db p tok Hadd Hpar Et). cbn [fst snd].
  set (row := DbRow.mk (id self) (Some (DbRow.id p))
                       (Some (xstr (DbRow.path p) ++ tok))).
  assert (Erow : as_row (mkNode (id self) (Some (xstr (DbRow.path p) ++ tok))
                                (Some p) (_original_parent_id self) false) = row)
    by reflexivity.
  rewrite Erow.
  split; [reflexivity | split; [| split]].
  - apply (write_row_get row db).
  - unfold has_children. apply existsb_exists. exists row.
    split; [apply write_row_in |].
    cbn. rewrite Hpn. apply Z.eqb_refl.
  - unfold get_descendants, get_descendants_search_partial.
    rewrite Hpn, Et, Hpp. cbn [bind]. eexists. split; [reflexivity |].
    apply filter_In. split; [apply write_row_in |].
    unfold path_startswith, row. cbn [DbRow.path].
    rewrite <- (app_nil_r (_ ++ _)) at 1. apply like_prefix_app.
Qed.

Lemma created_child_visible_witness :
  let p := DbRow.mk 37 (Some 1) (Some (lit "11")) in
  let pnode := mkNode 37 (Some (lit "11")) (Some (DbRow.mk 1 None None)) (Some 1) false in
  let self := mkNode 38 None (Some p) (Some 37) true in
  let db := [DbRow.mk 1 None None; p] in
  let self' := fst (snd (save (self, db))) in
  let db' := snd (snd (save (self, db))) in
  fst (save (self, db)) = Ok tt /\
  objects_get db' (id self) = Ok (as_row self') /\
  has_children pnode db' = true /\
  exists ds, get_descendants pnode db' = Ok ds /\ In (as_row self') ds.
Proof.
  intros p pnode self db.
  apply (created_child_visible self pnode db p).
  - reflexivity.
  - reflexivity.
  - cbn. lia.
  - reflexivity.
  - reflexivity.
Defined.

(** * Roots, ancestors, siblings *)

(** X10: [get_root] returns the record itself when it has no path; when the path
    encodes a chain starting with [a], it returns the row fetched for [a],
    whose key is [a], and raises [DoesNotExist] when the table has no such
    row. *)
Theorem get_root_spec (self : Node) (db : Store) :
  (truthy_str (path self) = false -> get_root self db = Ok Self) /\
  (forall a anc,
     Forall in_contract (a :: anc) ->
     encode_ids_to_path (a :: anc) = Ok (xstr (path self)) ->
     (forall r, objects_get db a = Ok r ->
                get_root self db = Ok (Fetched r) /\ DbRow.id r = a /\ In r db) /\
     ((forall r, In r db -> DbRow.id r <> a) ->
      get_root self db = Raise DoesNotExist)).
Proof.
  split.
  - intros Ht. unfold get_root. rewrite Ht. reflexivity.
  - intros a anc Hall E.
    assert (D := decode_of_encoded _ (path self) Hall E).
    assert (Ht : truthy_str (path self) = true).
    { destruct (truthy_str (path self)) eqn:Ht; [reflexivity |].
      discriminate (falsy_path_encodes_nil _ _ Hall E Ht). }
    unfold get_root. rewrite Ht, D. cbn [negb bind index nth_error].
    split.
    + intros r Hr. rewrite Hr. destruct (objects_get_found _ _ _ Hr) as [Hin Hid].
      split; [reflexivity | split; assumption].
    + intros Hnone. apply objects_get_missing in Hnone. rewrite Hnone. reflexivity.
Qed.

Lemma get_root_spec_witness :
  let self := mkNode 38 (Some (lit "11211")) None None false in
  let db := [DbRow.mk 1 None None; DbRow.mk 37 (Some 1) (Some (lit "11"))] in
  (get_root self db = Ok (Fetched (DbRow.mk 1 None None)) /\
   DbRow.id (DbRow.mk 1 None None) = 1 /\ In (DbRow.mk 1 None None) db) /\
  get_root self [] = Raise DoesNotExist.
Proof.
  intros self db. split.
  - apply (proj1 (proj2 (get_root_spec self db) 1 [37]
                    ltac:(repeat constructor; vm_compute; congruence) eq_refl)).
    reflexivity.
  - apply (proj2 (proj2 (get_root_spec self []) 1 [37]
                    ltac:(repeat constructor; vm_compute; congruence) eq_refl)).
    intros r [].
Defined.

(** X11: [get_ancestors] returns [None] for a record without ancestors, and
    otherwise the rows of the table whose key is on the chain, and no
    other row. *)
Theorem get_ancestors_spec (self : Node) (db : Store) (anc : list Z) :
  Forall in_contract anc ->
  encode_ids_to_path anc = Ok (xstr (path self)) ->
  (anc = [] -> get_ancestors self db = Ok None) /\
  (anc <> [] ->
   exists rs, get_ancestors self db = Ok (Some rs) /\
              forall r, In r rs <-> In r db /\ In (DbRow.id r) anc).
Proof.
  intros Hanc E.
  unfold get_ancestors. rewrite (ancestors_ids_chain self anc Hanc E).
  cbn [bind]. split.
  - intros ->. reflexivity.
  - intros Hne. destruct anc as [|a anc]; [contradiction |].
    eexists. split; [reflexivity |].
    intros r. rewrite filter_In, existsb_Zeqb_In. reflexivity.
Qed.

Lemma get_ancestors_spec_witness :
  let self := mkNode 38 (Some (lit "11211")) None None false in
  let db := [DbRow.mk 1 None None; DbRow.mk 2 None None;
             DbRow.mk 37 (Some 1) (Some (lit "11"))] in
  exists rs, get_ancestors self db = Ok (Some rs) /\
             forall r, In r rs <-> In r db /\ In (DbRow.id r) [1; 37].
Proof.
  intros self db.
  apply (proj2 (get_ancestors_spec self db [1; 37]
                  ltac:(repeat constructor; vm_compute; congruence) eq_refl)).
  discriminate.
Defined.

(** X12: A row is among the siblings returned exactly when it is a row of the
    table other than the record's own and its [parent_id] is the record's
    (NULL when the record's [parent_id] is [None] or 0); and [None] is
    returned only when there is no such row. *)
Theorem get_siblings_members (self : Node) (db : Store) :
  let k := if truthy_id (parent_id self) then parent_id self else None in
  (forall rs, get_siblings self db = Some rs ->
     forall r, In r rs <->
               In r db /\ DbRow.parent_id r = k /\ DbRow.id r <> id self) /\
  (get_siblings self db = None ->
     forall r, In r db -> DbRow.parent_id r = k -> DbRow.id r = id self).
Proof.
  cbv zeta.
  assert (Hmem : forall k r,
            In r (same_parent_others k self db) <->
            In r db /\ DbRow.parent_id r = k /\ DbRow.id r <> id self).
  { intros k r. unfold same_parent_others.
    rewrite filter_In, andb_true_iff, opt_Z_eqb_spec, negb_true_iff, Z.eqb_neq.
    reflexivity. }
  unfold get_siblings.
  destruct (truthy_id (parent_id self)); cbn [negb].
  - destruct (same_parent_others (parent_id self) self db) as [|r0 rs0] eqn:Es.
    + split; [discriminate |].
      intros _ r Hin Hp.
      destruct (Z.eq_dec (DbRow.id r) (id self)) as [Heq | Hne]; [exact Heq |].
      exfalso. assert (H : In r []) by (rewrite <- Es; apply Hmem; auto).
      exact H.
    + split; [| discriminate].
      intros rs H r. injection H as <-. rewrite <- Es. apply Hmem.
  - split; [| discriminate].
    intros rs H r. injection H as <-. apply Hmem.
Qed.

Lemma get_siblings_members_witness :
  let self := mkNode 37 (Some (lit "11")) (Some (DbRow.mk 1 None None)) (Some 1) false in
  let db := [DbRow.mk 1 None None; DbRow.mk 37 (Some 1) (Some (lit "11"));
             DbRow.mk 40 (Some 1) (Some (lit "11"))] in
  let r := DbRow.mk 40 (Some 1) (Some (lit "11")) in
  In r [r] <-> In r db /\ DbRow.parent_id r = Some 1 /\ DbRow.id r <> id self.
Proof.
  intros self db r.
  apply (proj1 (get_siblings_members self db) [r]).
  reflexivity.
Defined.

(** * Saving an existing record *)

Lemma save_falsy_run (self : Node) (db : Store) (tok_s : str) :
  adding self = false ->
  _original_parent_id self <> parent_id self ->
  truthy_id (parent_id self) = false ->
  encode_base36_id (id self) = Ok tok_s ->
  save (self, db)
  = (Ok tt,
     (mkNode (id self) None (parent self) (_original_parent_id self) false,
      write_row (DbRow.mk (id self) (parent_id self) None)
                (update_replace (xstr (path self) ++ tok_s) (xstr (path self))
                                None db))).
Proof.
  intros Hadd Hchg Hf Es.
  destruct self as [i pth par orig add].
  unfold parent_id in *. cbn in Hadd, Hchg, Hf, Es. subst add.
  assert (Hne : opt_Z_eqb orig (option_map DbRow.id par) = false).
  { destruct (opt_Z_eqb orig (option_map DbRow.id par)) eqn:E; [| reflexivity].
    apply opt_Z_eqb_spec in E. contradiction. }
  destruct par as [p|]; cbn in Hne, Hf.
  - apply negb_false_iff in Hf.
    run_save. rewrite Hne. run_save. rewrite Es. run_save. rewrite Hf. run_save.
    reflexivity.
  - run_save. rewrite Hne. run_save. rewrite Es. run_save. reflexivity.
Qed.

Lemma save_same_run (self : Node) (db : Store) :
  adding self = false ->
  _original_parent_id self = parent_id self ->
  save (self, db) = (Ok tt, (self, write_row (as_row self) db)).
Proof.
  intros Hadd Hsame. destruct self as [i pth par orig add].
  unfold parent_id in Hsame. cbn in Hadd, Hsame. subst add orig.
  unfold save, mbind, get_self, ret, super_save. cbn.
  assert (E : opt_Z_eqb (option_map DbRow.id par) (option_map DbRow.id par) = true)
    by (apply opt_Z_eqb_spec; reflexivity).
  unfold parent_id. cbn. rewrite E. reflexivity.
Qed.

Lemma save_existing_inv (self : Node) (db : Store) :
  adding self = false ->
  fst (save (self, db)) = Ok tt ->
  saved_existing self.
Proof.
  intros Hadd Hok.
  destruct (opt_Z_eqb (_original_parent_id self) (parent_id self)) eqn:Heq.
  - apply saved_same. apply opt_Z_eqb_spec. exact Heq.
  - assert (Hchg : _original_parent_id self <> parent_id self).
    { intros H. apply opt_Z_eqb_spec in H. congruence. }
    destruct (encode_base36_id (id self)) as [tok_s | e |] eqn:Es.
    2,3: exfalso; destruct self as [i pth par orig add]; cbn in Hadd, Es;
         subst add; unfold parent_id in Heq; destruct par as [p|]; cbn in Heq;
         revert Hok; run_save; rewrite Heq; run_save; rewrite Es; run_save;
         discriminate.
    destruct (truthy_id (parent_id self)) eqn:Ht.
    + destruct self as [i pth par orig add]. cbn in Hadd. subst add.
      unfold parent_id in *. cbn in Heq, Hchg, Es, Ht.
      destruct par as [p|]; [| discriminate Ht]. cbn in Ht, Heq, Hchg.
      assert (Hz : (DbRow.id p =? 0) = false) by (apply negb_true_iff; exact Ht).
      revert Hok. run_save. rewrite Heq. run_save. rewrite Es. run_save.
      rewrite Hz. run_save.
      destruct (encode_base36_id (DbRow.id p)) as [tok_p | e |] eqn:Ep;
        run_save; try discriminate.
      destruct (decode_path_to_ids (Some (xstr (DbRow.path p) ++ tok_p)))
        as [ids | e |] eqn:D; run_save; try discriminate.
      destruct (existsb (Z.eqb i) ids) eqn:Hex; run_save; try discriminate.
      intros _.
      apply (saved_moved _ p tok_s tok_p ids); try assumption; try reflexivity.
      apply Z.eqb_neq. exact Hz.
    + apply (saved_unparented _ tok_s); assumption.
Qed.

(** ** The bulk update *)

Lemma row_eta (r : DbRow.t) :
  DbRow.mk (DbRow.id r) (DbRow.parent_id r) (DbRow.path r) = r.
Proof. destruct r; reflexivity. Qed.

Lemma path_startswith_some (sp : str) (r : DbRow.t) :
  path_startswith sp r = true -> DbRow.path r = Some (xstr (DbRow.path r)).
Proof.
  unfold path_startswith. destruct (DbRow.path r); [reflexivity | discriminate].
Qed.

Lemma update_replace_ids (sp pat : str) (rep : option str) (db : Store) :
  map DbRow.id (update_replace sp pat rep db) = map DbRow.id db /\
  map DbRow.parent_id (update_replace sp pat rep db) = map DbRow.parent_id db.
Proof.
  unfold update_replace. rewrite !map_map. split; apply map_ext; intros r;
    destruct (path_startswith sp r); reflexivity.
Qed.


Lemma update_replace_in (sp pat : str) (rep : option str) (db : Store)
      (r : DbRow.t) :
  In r db -> path_startswith sp r = true ->
  In (DbRow.mk (DbRow.id r) (DbRow.parent_id r)
               (sql_replace (xstr (DbRow.path r)) pat rep))
     (update_replace sp pat rep db).
Proof.
  intros Hin Hs. unfold update_replace. apply in_map_iff.
  exists r. rewrite Hs. split; [reflexivity | exact Hin].
Qed.

Lemma update_replace_empty_pattern (sp : str) (rep : option str) (db : Store) :
  update_replace sp [] rep db = db.
Proof.
  unfold update_replace. rewrite <- (map_id db) at 2. apply map_ext.
  intros r. destruct (path_startswith sp r) eqn:Hs; [| reflexivity].
  cbn [sql_replace]. rewrite <- (path_startswith_some _ _ Hs). apply row_eta.
Qed.

(** ** SQL [replace] *)

Lemma replace_from_skip (a rest pat rep : str) :
  replace_from (a ++ rest) (length a) pat rep = replace_from rest 0 pat rep.
Proof.
  induction a as [|c a IH]; [reflexivity |]. cbn [app length replace_from]. exact IH.
Qed.

Lemma replace_from_match (pat rest rep : str) :
  pat <> [] ->
  replace_from (pat ++ rest) 0 pat rep = rep ++ replace_from rest 0 pat rep.
Proof.
  intros Hne. destruct pat as [|c pat]; [contradiction |].
  cbn [app replace_from].
  assert (Hs : startswith (c :: pat ++ rest) (c :: pat) = true)
    by (apply startswith_spec; exists rest; reflexivity).
  rewrite Hs.
  replace (length (c :: pat) - 1)%nat with (length pat) by (cbn [length]; lia).
  rewrite replace_from_skip. reflexivity.
Qed.

Lemma replace_from_absent (x pat rep : str) :
  (forall a b, x <> a ++ pat ++ b) ->
  replace_from x 0 pat rep = x.
Proof.
  induction x as [|c x IH]; intros Habs; [reflexivity |].
  cbn [replace_from].
  destruct (startswith (c :: x) pat) eqn:Hs.
  - apply startswith_spec in Hs. destruct Hs as [r E].
    exfalso. apply (Habs [] r). exact E.
  - f_equal. apply IH. intros a b E. apply (Habs (c :: a) b). rewrite E. reflexivity.
Qed.

(** Replacing a pattern by itself gives the string back. *)
Lemma replace_from_self (pat : str) :
  pat <> [] ->
  forall x skip, replace_from x skip pat pat = skipn skip x.
Proof.
  intros Hne. induction x as [|c x IH]; intros skip.
  - destruct skip; reflexivity.
  - cbn [replace_from]. destruct skip as [|k]; [| rewrite IH; reflexivity].
    destruct (startswith (c :: x) pat) eqn:Hs.
    + apply startswith_spec in Hs. destruct Hs as [r E].
      destruct pat as [|d pat]; [contradiction |].
      cbn [app] in E. injection E as <- ->.
      rewrite IH.
      replace (length (c :: pat) - 1)%nat with (length pat) by (cbn [length]; lia).
      rewrite skipn_app, skipn_all, Nat.sub_diag. reflexivity.
    + rewrite IH. reflexivity.
Qed.

Lemma update_replace_self (sp pat : str) (db : Store) :
  update_replace sp pat (Some pat) db = db.
Proof.
  destruct pat as [|c pat]; [apply update_replace_empty_pattern |].
  unfold update_replace. rewrite <- (map_id db) at 2. apply map_ext.
  intros r. destruct (path_startswith sp r) eqn:Hs; [| reflexivity].
  cbn [sql_replace]. rewrite replace_from_self by discriminate. cbn [skipn].
  rewrite <- (path_startswith_some _ _ Hs). apply row_eta.
Qed.

Lemma write_row_twice (row : DbRow.t) (db : Store) :
  write_row row (write_row row db) = write_row row db.
Proof.
  induction db as [|r db IH].
  - cbn. rewrite Z.eqb_refl. reflexivity.
  - cbn [write_row]. destruct (DbRow.id r =? DbRow.id row) eqn:E.
    + cbn [write_row]. rewrite Z.eqb_refl. reflexivity.
    + cbn [write_row]. rewrite E, IH. reflexivity.
Qed.

(** * Moving a record *)

(** X13: Saving an existing record under a new parent, when the record's key is
    neither the parent's key nor on the parent's chain [anc], succeeds: the
    record's path becomes the encoding of [anc] followed by the parent's
    key, its depth one more than the length of [anc], and its row holds the
    new parent and the new path. *)
Theorem reparent_own_row (self : Node) (db : Store) (p : DbRow.t)
        (anc : list Z) :
  adding self = false ->
  parent self = Some p ->
  _original_parent_id self <> Some (DbRow.id p) ->
  DbRow.id p <> 0 ->
  in_contract (DbRow.id p) ->
  0 <= id self ->
  Forall in_contract anc ->
  encode_ids_to_path anc = Ok (xstr (DbRow.path p)) ->
  ~ In (id self) (anc ++ [DbRow.id p]) ->
  exists np,
    encode_ids_to_path (anc ++ [DbRow.id p]) = Ok np /\
    fst (save (self, db)) = Ok tt /\
    path (fst (snd (save (self, db)))) = Some np /\
    depth (fst (snd (save (self, db)))) = Ok (Z.of_nat (length anc) + 1) /\
    objects_get (snd (snd (save (self, db)))) (id self)
    = Ok (DbRow.mk (id self) (Some (DbRow.id p)) (Some np)).
Proof.
  intros Hadd Hpar Hchg Hnz Hpid Hid Hanc Ea Hnot.
  destruct (encode_base36_id_spec _ Hpid) as [bp [Ep _]].
  destruct (encode_base36_id_cases (id self)) as [[_ [tok_s Es]] | [Hneg _]];
    [| lia].
  assert (D := decode_parent_chain anc _ _ _ Hanc Hpid Ea Ep).
  assert (Hex : existsb (Z.eqb (id self)) (anc ++ [DbRow.id p]) = false).
  { destruct (existsb (Z.eqb (id self)) (anc ++ [DbRow.id p])) eqn:E;
      [| reflexivity].
    apply existsb_Zeqb_In in E. contradiction. }
  assert (Hall : Forall in_contract (anc ++ [DbRow.id p]))
    by (apply Forall_app; split; [exact Hanc | constructor; [exact Hpid | constructor]]).
  assert (Eall : encode_ids_to_path (anc ++ [DbRow.id p])
                 = Ok (xstr (DbRow.path p) ++ token bp)).
  { rewrite encode_ids_to_path_app, Ea. cbn [bind].
    rewrite encode_ids_to_path_cons, Ep. cbn. rewrite app_nil_r. reflexivity. }
  exists (xstr (DbRow.path p) ++ token bp).
  rewrite (save_change_run self db p tok_s (token bp) _ Hadd Hpar Hchg Hnz Es Ep D Hex).
  cbn [fst snd path].
  split; [exact Eall | split; [reflexivity | split; [reflexivity | split]]].
  - set (self' := mkNode (id self) (Some (xstr (DbRow.path p) ++ token bp))
                         (Some p) (_original_parent_id self) false).
    rewrite (depth_chain self' _ Hall Eall), length_app. cbn [length].
    f_equal. lia.
  - apply (write_row_get (DbRow.mk (id self) (Some (DbRow.id p))
                                   (Some (xstr (DbRow.path p) ++ token bp)))).
Qed.

Lemma reparent_own_row_witness :
  let p := DbRow.mk 5 (Some 4) (Some (lit "14")) in
  let self := mkNode 37 (Some (lit "11")) (Some p) (Some 1) false in
  let db := [DbRow.mk 1 None None; DbRow.mk 4 None None; p;
             DbRow.mk 37 (Some 1) (Some (lit "11"))] in
  exists np,
    encode_ids_to_path ([4] ++ [DbRow.id p]) = Ok np /\
    fst (save (self, db)) = Ok tt /\
    path (fst (snd (save (self, db)))) = Some np /\
    depth (fst (snd (save (self, db)))) = Ok (Z.of_nat (length [4]) + 1) /\
    objects_get (snd (snd (save (self, db)))) (id self)
    = Ok (DbRow.mk (id self) (Some (DbRow.id p)) (Some np)).
Proof.
  intros p self db. apply (reparent_own_row self db p [4]).
  - reflexivity.
  - reflexivity.
  - discriminate.
  - discriminate.
  - vm_compute. split; congruence.
  - cbn. lia.
  - repeat constructor; vm_compute; congruence.
  - reflexivity.
  - intros [H | [H | []]]; discriminate H.
Defined.

(** X14: After a save that changed the parent of an existing record, the
    record's own key is not on its path: [is_child_of] with that key
    answers [False]. *)
Theorem reparent_never_own_ancestor (self : Node) (db : Store) :
  adding self = false ->
  _original_parent_id self <> parent_id self ->
  fst (save (self, db)) = Ok tt ->
  is_child_of (fst (snd (save (self, db)))) (id self) = Ok false.
Proof.
  intros Hadd Hchg Hok.
  destruct (save_existing_inv self db Hadd Hok)
    as [Hsame | p tok_s tok_p ids Hpar Hne Hnz Es Ep D Hex | tok_s _ Hf Es].
  - contradiction.
  - rewrite (save_change_run self db p tok_s tok_p ids Hadd Hpar Hne Hnz Es Ep D Hex).
    cbn [fst snd]. unfold is_child_of. cbn [path].
    destruct (truthy_str (Some (xstr (DbRow.path p) ++ tok_p))); cbn [negb];
      [| reflexivity].
    rewrite D. cbn [bind]. rewrite Hex. reflexivity.
  - rewrite (save_falsy_run self db tok_s Hadd Hchg Hf Es). reflexivity.
Qed.

Lemma reparent_never_own_ancestor_witness :
  let p := DbRow.mk 5 (Some 4) (Some (lit "14")) in
  let self := mkNode 37 (Some (lit "11")) (Some p) (Some 1) false in
  let db := [DbRow.mk 1 None None; DbRow.mk 4 None None; p;
             DbRow.mk 37 (Some 1) (Some (lit "11"))] in
  is_child_of (fst (snd (save (self, db)))) (id self) = Ok false.
Proof.
  intros p self db. apply (reparent_never_own_ancestor self db).
  - reflexivity.
  - discriminate.
  - reflexivity.
Defined.





(** A row selected up to case only: record 10 (token [1A], path [11]) is
    moved under record 2; the row with path [111a] is selected by the
    lookup for [111A] and its path rewritten. *)
Lemma save_rewrites_row_selected_up_to_case :
  let p := DbRow.mk 2 None None in
  let self := mkNode 10 (Some (lit "11")) (Some p) (Some 1) false in
  let r := DbRow.mk 50 None (Some (lit "111a")) in
  let db := [DbRow.mk 1 None None; p; DbRow.mk 10 (Some 1) (Some (lit "11")); r] in
  encode_base36_id 10 = Ok (lit "1A") /\
  startswith (lit "111a") (lit "111A") = false /\
  path_startswith (lit "111A") r = true /\
  fst (save (self, db)) = Ok tt /\
  objects_get (snd (snd (save (self, db)))) 50
  = Ok (DbRow.mk 50 None (Some (lit "121a"))).
Proof. cbv zeta. repeat split; vm_compute; reflexivity. Qed.

Lemma falsy_xstr (p : option str) : truthy_str p = false -> xstr p = [].
Proof. destruct p as [[|c r]|]; try discriminate; reflexivity. Qed.

Lemma truthy_xstr (p : option str) : truthy_str p = true -> xstr p <> [].
Proof. destruct p as [[|c r]|]; try discriminate; intros _; discriminate. Qed.

(** X16: When the record's old path does not occur again in what follows it in
    the path of a row beneath the record, a successful save under a new
    parent gives that row the record's new path followed by exactly what
    followed the old one. *)
Theorem subtree_relocated (self : Node) (db : Store) (p r : DbRow.t)
        (tok_s rest : str) :
  adding self = false ->
  parent self = Some p ->
  _original_parent_id self <> Some (DbRow.id p) ->
  DbRow.id p <> 0 ->
  fst (save (self, db)) = Ok tt ->
  encode_base36_id (id self) = Ok tok_s ->
  xstr (path self) <> [] ->
  In r db ->
  DbRow.id r <> id self ->
  DbRow.path r = Some (xstr (path self) ++ tok_s ++ rest) ->
  (forall a b, tok_s ++ rest <> a ++ xstr (path self) ++ b) ->
  exists np,
    path (fst (snd (save (self, db)))) = Some np /\
    In (DbRow.mk (DbRow.id r) (DbRow.parent_id r) (Some (np ++ tok_s ++ rest)))
       (snd (snd (save (self, db)))).
Proof.
  intros Hadd Hpar Hchg Hnz Hok Es Hold Hin Hne Hr Habs.
  assert (Hpid : parent_id self = Some (DbRow.id p))
    by (unfold parent_id; rewrite Hpar; reflexivity).
  destruct (save_existing_inv self db Hadd Hok)
    as [Hsame | p' tok_s' tok_p ids Hpar' Hne' Hnz' Es' Ep D Hex | tok_s' _ Hf _].
  - exfalso. apply Hchg. rewrite Hsame. exact Hpid.
  - rewrite Hpar in Hpar'. injection Hpar' as <-.
    rewrite Es in Es'. injection Es' as <-.
    rewrite (save_change_run self db p tok_s tok_p ids Hadd Hpar Hchg Hnz Es Ep D Hex).
    cbn [fst snd path].
    exists (xstr (DbRow.path p) ++ tok_p). split; [reflexivity |].
    apply write_row_keeps; [| exact Hne].
    assert (Hs : path_startswith (xstr (path self) ++ tok_s) r = true).
    { unfold path_startswith. rewrite Hr, app_assoc. apply like_prefix_app. }
    assert (Hu := update_replace_in (xstr (path self) ++ tok_s) (xstr (path self))
                    (Some (xstr (DbRow.path p) ++ tok_p)) db r Hin Hs).
    rewrite Hr in Hu. cbn [xstr] in Hu.
    destruct (xstr (path self)) as [|c old] eqn:Eold; [contradiction |].
    cbn [sql_replace] in Hu.
    rewrite replace_from_match in Hu by discriminate.
    rewrite (replace_from_absent (tok_s ++ rest)) in Hu by exact Habs.
    exact Hu.
  - exfalso. rewrite Hpid in Hf. cbn in Hf.
    apply negb_false_iff, Z.eqb_eq in Hf. contradiction.
Qed.

Lemma subtree_relocated_witness :
  let p := DbRow.mk 2 None None in
  let self := mkNode 5 (Some (lit "11")) (Some p) (Some 1) false in
  let r := DbRow.mk 6 (Some 5) (Some (lit "1115")) in
  let db := [DbRow.mk 1 None None; p; DbRow.mk 5 (Some 1) (Some (lit "11")); r] in
  exists np,
    path (fst (snd (save (self, db)))) = Some np /\
    In (DbRow.mk (DbRow.id r) (DbRow.parent_id r) (Some (np ++ lit "15" ++ [])))
       (snd (snd (save (self, db)))).
Proof.
  intros p self r db.
  apply (subtree_relocated self db p r (lit "15") []).
  - reflexivity.
  - reflexivity.
  - discriminate.
  - discriminate.
  - reflexivity.
  - reflexivity.
  - discriminate.
  - right. right. right. left. reflexivity.
  - discriminate.
  - reflexivity.
  - intros a b E. cbn in E.
    destruct a as [|a1 [|a2 a]]; cbn in E.
    + discriminate E.
    + injection E as _ E. discriminate E.
    + injection E as _ _ E. destruct a; discriminate E.
Defined.

(** X17: Saving an existing record that has no path rewrites the record's own
    row and nothing else, also when the record has just been given a
    parent: the rows beneath it keep the paths they had. *)
Theorem save_without_path_writes_own_row_only (self : Node) (db : Store) :
  adding self = false ->
  truthy_str (path self) = false ->
  fst (save (self, db)) = Ok tt ->
  snd (snd (save (self, db)))
  = write_row (as_row (fst (snd (save (self, db))))) db.
Proof.
  intros Hadd Hf Hok.
  assert (Hx := falsy_xstr _ Hf).
  destruct (save_existing_inv self db Hadd Hok)
    as [Hsame | p tok_s tok_p ids Hpar Hne Hnz Es Ep D Hex | tok_s Hchg Hfp Es].
  - rewrite (save_same_run self db Hadd Hsame). reflexivity.
  - rewrite (save_change_run self db p tok_s tok_p ids Hadd Hpar Hne Hnz Es Ep D Hex).
    cbn [fst snd]. rewrite Hx, update_replace_empty_pattern. reflexivity.
  - rewrite (save_falsy_run self db tok_s Hadd Hchg Hfp Es).
    cbn [fst snd]. rewrite Hx, update_replace_empty_pattern. reflexivity.
Qed.

Lemma save_without_path_writes_own_row_only_witness :
  let self := mkNode 1 None (Some (DbRow.mk 2 None None)) None false in
  let db := [DbRow.mk 1 None None; DbRow.mk 2 None None;
             DbRow.mk 3 (Some 1) (Some (lit "11"))] in
  snd (snd (save (self, db)))
  = write_row (as_row (fst (snd (save (self, db))))) db.
Proof.
  intros self db.
  apply (save_without_path_writes_own_row_only self db); reflexivity.
Defined.

(** X18: Saving an existing record with its parent removed sets to NULL the
    path of every other row that the lookup [path__startswith] selects for
    the record's old path followed by the record's token. *)
Theorem unparent_clears_subtree_paths (self : Node) (db : Store)
        (tok_s : str) (r : DbRow.t) :
  adding self = false ->
  parent self = None ->
  _original_parent_id self <> None ->
  truthy_str (path self) = true ->
  encode_base36_id (id self) = Ok tok_s ->
  In r db ->
  DbRow.id r <> id self ->
  path_startswith (xstr (path self) ++ tok_s) r = true ->
  fst (save (self, db)) = Ok tt /\
  In (DbRow.mk (DbRow.id r) (DbRow.parent_id r) None) (snd (snd (save (self, db)))).
Proof.
  intros Hadd Hpar Hchg Ht Es Hin Hne Hs.
  rewrite (save_unparent_run self db tok_s Hadd Hpar Hchg Es). cbn [fst snd].
  split; [reflexivity |].
  apply write_row_keeps; [| exact Hne].
  assert (Hu := update_replace_in (xstr (path self) ++ tok_s) (xstr (path self))
                  None db r Hin Hs).
  assert (Hold := truthy_xstr _ Ht).
  destruct (xstr (path self)) as [|c old]; [contradiction |].
  exact Hu.
Qed.

Lemma unparent_clears_subtree_paths_witness :
  let self := mkNode 37 (Some (lit "11")) None (Some 1) false in
  let r := DbRow.mk 38 (Some 37) (Some (lit "11211")) in
  let db := [DbRow.mk 1 None None; DbRow.mk 37 (Some 1) (Some (lit "11")); r] in
  fst (save (self, db)) = Ok tt /\
  In (DbRow.mk (DbRow.id r) (DbRow.parent_id r) None) (snd (snd (save (self, db)))).
Proof.
  intros self r db.
  apply (unparent_clears_subtree_paths self db (lit "211") r).
  - reflexivity.
  - reflexivity.
  - discriminate.
  - reflexivity.
  - reflexivity.
  - right. right. left. reflexivity.
  - discriminate.
  - reflexivity.
Defined.

(** X19: Saving an existing record a second time, right after a successful
    save, changes neither the instance nor the table, although
    [_original_parent_id] still holds the parent the record was loaded
    with. *)
Theorem save_twice (self : Node) (db : Store) :
  adding self = false ->
  fst (save (self, db)) = Ok tt ->
  save (snd (save (self, db))) = (Ok tt, snd (save (self, db))).
Proof.
  intros Hadd Hok.
  destruct (save_existing_inv self db Hadd Hok)
    as [Hsame | p tok_s tok_p ids Hpar Hne Hnz Es Ep D Hex | tok_s Hchg Hf Es].
  - rewrite (save_same_run self db Hadd Hsame). cbn [snd].
    rewrite (save_same_run self _ Hadd Hsame), write_row_twice. reflexivity.
  - rewrite (save_change_run self db p tok_s tok_p ids Hadd Hpar Hne Hnz Es Ep D Hex).
    cbn [snd].
    set (np := xstr (DbRow.path p) ++ tok_p).
    set (self' := mkNode (id self) (Some np) (Some p) (_original_parent_id self) false).
    set (row := DbRow.mk (id self) (Some (DbRow.id p)) (Some np)).
    rewrite (save_change_run self' _ p tok_s tok_p ids
               eq_refl eq_refl Hne Hnz Es Ep D Hex).
    cbn [id path _original_parent_id xstr self'].
    fold np. fold row.
    rewrite update_replace_self, write_row_twice. reflexivity.
  - rewrite (save_falsy_run self db tok_s Hadd Hchg Hf Es). cbn [snd].
    set (self' := mkNode (id self) None (parent self) (_original_parent_id self) false).
    assert (Hp' : parent_id self' = parent_id self) by reflexivity.
    rewrite (save_falsy_run self' _ tok_s eq_refl
               ltac:(rewrite Hp'; exact Hchg) ltac:(rewrite Hp'; exact Hf) Es).
    cbn [id path _original_parent_id parent xstr self' app].
    rewrite Hp', update_replace_empty_pattern, write_row_twice. reflexivity.
Qed.

Lemma save_twice_witness :
  let p := DbRow.mk 2 None None in
  let self := mkNode 5 (Some (lit "11")) (Some p) (Some 1) false in
  let db := [DbRow.mk 1 None None; p; DbRow.mk 5 (Some 1) (Some (lit "11"));
             DbRow.mk 6 (Some 5) (Some (lit "1115"))] in
  save (snd (save (self, db))) = (Ok tt, snd (save (self, db))).
Proof.
  intros p self db. apply (save_twice self db); reflexivity.
Defined.

(** * Descendants *)

Lemma path_startswith_xstr (sp : str) (r : DbRow.t) :
  sp <> [] -> path_startswith sp r = like_prefix (xstr (DbRow.path r)) sp.
Proof.
  intros Hne. unfold path_startswith.
  destruct (DbRow.path r) as [x|]; [reflexivity |].
  destruct sp; [contradiction | reflexivity].
Qed.



(** X21: When the record's path encodes its chain [anc], a row whose path
    encodes the chain [ids] is among the descendants exactly when [ids]
    starts with [anc] followed by the record's key. *)
Theorem get_descendants_members (self : Node) (db : Store) (anc : list Z) :
  in_contract (id self) ->
  Forall in_contract anc ->
  encode_ids_to_path anc = Ok (xstr (path self)) ->
  exists ds,
    get_descendants self db = Ok ds /\
    forall r ids,
      In r db ->
      Forall in_contract ids ->
      encode_ids_to_path ids = Ok (xstr (DbRow.path r)) ->
      (In r ds <-> exists rest, ids = anc ++ id self :: rest).
Proof.
  intros Hid Hanc Ea.
  destruct (encode_base36_id_spec _ Hid) as [b [Et _]].
  assert (Hall : Forall in_contract (anc ++ [id self]))
    by (apply Forall_app; split; [exact Hanc | constructor; [exact Hid | constructor]]).
  assert (Eall : encode_ids_to_path (anc ++ [id self])
                 = Ok (xstr (path self) ++ token b)).
  { rewrite encode_ids_to_path_app, Ea. cbn [bind].
    rewrite encode_ids_to_path_cons, Et. cbn. rewrite app_nil_r. reflexivity. }
  unfold get_descendants, get_descendants_search_partial.
  rewrite Et. cbn [bind]. eexists. split; [reflexivity |].
  intros r ids Hin Hids Er.
  rewrite filter_In, path_startswith_xstr
    by (intros H; apply app_eq_nil in H; destruct H as [_ H]; discriminate H).
  rewrite (like_prefix_encoded (anc ++ [id self]) ids _ _ Hall Hids Eall Er).
  rewrite (startswith_encoded (anc ++ [id self]) ids _ _ Hall Hids Eall Er).
  split.
  - intros [_ [rest ->]]. exists rest. rewrite <- app_assoc. reflexivity.
  - intros [rest ->]. split; [exact Hin |]. exists rest.
    rewrite <- app_assoc. reflexivity.
Qed.

Lemma get_descendants_members_witness :
  let self := mkNode 37 (Some (lit "11")) None (Some 1) false in
  let db := [DbRow.mk 1 None None; DbRow.mk 37 (Some 1) (Some (lit "11"));
             DbRow.mk 38 (Some 37) (Some (lit "11211"))] in
  exists ds,
    get_descendants self db = Ok ds /\
    forall r ids,
      In r db ->
      Forall in_contract ids ->
      encode_ids_to_path ids = Ok (xstr (DbRow.path r)) ->
      (In r ds <-> exists rest, ids = [1] ++ id self :: rest).
Proof.
  intros self db. apply (get_descendants_members self db [1]).
  - vm_compute. split; congruence.
  - repeat constructor; vm_compute; congruence.
  - reflexivity.
Defined.
